(** * SHA-1 message hasher and self-check of [sha1test.c]

    A shallow embedding of the C driver: the full-message hasher
    [sha1_hash], the known-answer table [testCases], [self_check] and
    [main].  The compression function is [extern] in the C file; the
    driver is therefore written over an arbitrary compression function
    (a Section variable), and the compression function described by the
    design document is given separately as [compress].

    Integers are [Z] with the wrap-around of each C type written out.
    [size_t] is taken to be 64 bits wide (the x86-64 build). *)

From Stdlib Require Import ZArith Lia List String Ascii.
From stdpp Require Import base tactics option list list_numbers.

Local Open Scope Z_scope.

(** ** Machine integers *)

Definition u8 (x : Z) : Z := x mod 2 ^ 8.
Definition u32 (x : Z) : Z := x mod 2 ^ 32.
Definition SIZE_BITS : Z := 64.
Definition size_t (x : Z) : Z := x mod 2 ^ SIZE_BITS.

Definition BLOCK_SIZE : Z := 64.
Definition LENGTH_SIZE : Z := 8.

(** ** The state array [uint32_t state[5]] *)

Record state5 : Type := State5 { h0 : Z; h1 : Z; h2 : Z; h3 : Z; h4 : Z }.

Definition state5_eqb (x y : state5) : bool :=
  (h0 x =? h0 y) && (h1 x =? h1 y) && (h2 x =? h2 y) &&
  (h3 x =? h3 y) && (h4 x =? h4 y).

(** ** Outcomes: a value, or undefined behaviour made explicit *)

Inductive result (A : Type) : Type :=
| Ok (a : A)
| OutOfBounds
| OutOfFuel.
Arguments Ok {A} a.
Arguments OutOfBounds {A}.
Arguments OutOfFuel {A}.

(** ** The machine a call of [sha1_hash] runs on *)

(** The block argument of a call of the compression function: a
    pointer into the message, or the local array. *)
Inductive pointer : Type :=
| MessagePtr (off : Z)
| BlockPtr.

(** What the code does to memory: a store to [hash[i]], a store to
    byte [i] of the local array [block], a load of [message[i]], and
    the handing of a block pointer to the compression function. *)
Inductive event : Type :=
| WriteHash (i : Z)
| WriteBlock (i : Z)
| ReadMessage (i : Z)
| Pass (p : pointer).

(** [hash] is the caller's five-word array.  [calls] records every
    invocation of the compression function, oldest first, with the
    state on entry and the bytes found at the block pointer.  [trace]
    records the memory events of the code itself, oldest first; what
    the compression function does with the pointers it is given is
    not part of it. *)

Record machine : Type := Machine {
  hash : state5;
  calls : list (state5 * list Z);
  trace : list event
}.

Definition log (m : machine) (es : list event) : machine :=
  Machine (hash m) (calls m) (trace m ++ es).

Definition M (A : Type) : Type := machine -> result (A * machine).

Definition ret {A} (a : A) : M A := fun m => Ok (a, m).

Definition bind {A B} (c : M A) (k : A -> M B) : M B :=
  fun m => match c m with
           | Ok (a, m') => k a m'
           | OutOfBounds => OutOfBounds
           | OutOfFuel => OutOfFuel
           end.

Definition fail_fuel {A} : M A := fun _ => OutOfFuel.

Notation "x <- c ;; k" := (bind c (fun x => k))
  (at level 100, c at next level, right associativity).
Notation "c ;;; k" := (bind c (fun _ => k))
  (at level 100, right associativity).

(** [hash[i] = v] *)
Definition store_hash (i : Z) (v : Z) : M unit := fun m =>
  let h := hash m in
  let upd h' := Ok (tt, Machine h' (calls m) (trace m ++ [WriteHash i])) in
  if i =? 0 then upd (State5 v (h1 h) (h2 h) (h3 h) (h4 h))
  else if i =? 1 then upd (State5 (h0 h) v (h2 h) (h3 h) (h4 h))
  else if i =? 2 then upd (State5 (h0 h) (h1 h) v (h3 h) (h4 h))
  else if i =? 3 then upd (State5 (h0 h) (h1 h) (h2 h) v (h4 h))
  else if i =? 4 then upd (State5 (h0 h) (h1 h) (h2 h) (h3 h) v)
  else OutOfBounds.

(** Reading [message[i]]; outside the accessible bytes the behaviour is
    undefined, and the run is not followed further. *)
Definition read_byte (message : list Z) (i : Z) : M Z := fun m =>
  if i <? 0 then OutOfBounds
  else match message !! Z.to_nat i with
       | Some b => Ok (b, log m [ReadMessage i])
       | None => OutOfBounds
       end.

(** Reading the [n] bytes [message[off]], ..., [message[off+n-1]]. *)
Fixpoint load (message : list Z) (off : Z) (n : nat) : M (list Z) :=
  match n with
  | O => ret []
  | S n' =>
      b <- read_byte message off ;;
      bs <- load message (off + 1) n' ;;
      ret (b :: bs)
  end.

(** [uint8_t block[BLOCK_SIZE] = {0};] *)
Definition zero_block : M (list Z) := fun m =>
  Ok (replicate (Z.to_nat BLOCK_SIZE) 0, log m (WriteBlock <$> seqZ 0 BLOCK_SIZE)).

(** [block[i] = v] on a local array. *)
Definition store_block (block : list Z) (i : Z) (v : Z) : M (list Z) := fun m =>
  if (0 <=? i) && (i <? Z.of_nat (length block))
  then Ok (<[Z.to_nat i := v]> block, log m [WriteBlock i])
  else OutOfBounds.

(** [memcpy(block, src, n)] where [src] holds the [n] bytes read. *)
Definition memcpy (block src : list Z) : M (list Z) := fun m =>
  if (length src <=? length block)%nat
  then Ok (src ++ drop (length src) block,
           log m (WriteBlock <$> seqZ 0 (Z.of_nat (length src))))
  else OutOfBounds.

(** [memset(block, 0, sizeof(block))] *)
Definition memset0 (block : list Z) : M (list Z) := fun m =>
  Ok (replicate (length block) 0,
      log m (WriteBlock <$> seqZ 0 (Z.of_nat (length block)))).

(** The bytes found at [&message[off]] by a callee that is given this
    pointer as a 64-byte block. *)
Definition window (message : list Z) (off : Z) : list Z :=
  take (Z.to_nat BLOCK_SIZE) (drop (Z.to_nat off) message).

(** ** The driver, over an external compression function *)

Section Driver.

Variable sha1_compress : state5 -> list Z -> state5.

(** [sha1_compress(hash, p)], where [block] is what lies at [p]. *)
Definition call_compress (p : pointer) (block : list Z) : M unit := fun m =>
  Ok (tt, Machine (sha1_compress (hash m) block)
                  (calls m ++ [(hash m, block)])
                  (trace m ++ [Pass p])).

(** [for (off = 0; len - off >= BLOCK_SIZE; off += BLOCK_SIZE)
       sha1_compress(hash, &message[off]);]
    The value returned is [off] on leaving the loop. *)
Fixpoint hash_blocks (fuel : nat) (message : list Z) (len off : Z) : M Z :=
  if BLOCK_SIZE <=? size_t (len - off) then
    match fuel with
    | O => fail_fuel
    | S fuel' =>
        call_compress (MessagePtr off) (window message off) ;;;
        hash_blocks fuel' message len (size_t (off + BLOCK_SIZE))
    end
  else ret off.

(** [for (int i = 1; i < LENGTH_SIZE; i++, len >>= 8)
       block[BLOCK_SIZE - 1 - i] = (uint8_t)(len & 0xFFU);] *)
Fixpoint length_loop (fuel : nat) (i : Z) (block : list Z) (len : Z)
  : M (list Z) :=
  if i <? LENGTH_SIZE then
    match fuel with
    | O => fail_fuel
    | S fuel' =>
        block <- store_block block (BLOCK_SIZE - 1 - i) (u8 (Z.land len 0xFF)) ;;
        length_loop fuel' (i + 1) block (Z.shiftr len 8)
    end
  else ret block.

(** Lines 121-124: the length field written into [block]. *)
Definition encode_length (block : list Z) (len : Z) : M (list Z) :=
  block <- store_block block (BLOCK_SIZE - 1)
             (u8 (Z.shiftl (Z.land len 0x1F) 3)) ;;
  let len := Z.shiftr len 5 in
  length_loop (Z.to_nat LENGTH_SIZE) 1 block len.

(** Lines 110-125: the tail of the message, the 0x80 byte, the length. *)
Definition hash_tail (message : list Z) (len off : Z) : M unit :=
  block <- zero_block ;;
  let rem := size_t (len - off) in
  tail <- load message off (Z.to_nat rem) ;;
  block <- memcpy block tail ;;
  block <- store_block block rem 0x80 ;;
  let rem := size_t (rem + 1) in
  block <- (if size_t (BLOCK_SIZE - rem) <? LENGTH_SIZE
            then call_compress BlockPtr block ;;; memset0 block
            else ret block) ;;
  block <- encode_length block len ;;
  call_compress BlockPtr block.

Definition sha1_hash (message : list Z) (len : Z) : M unit :=
  store_hash 0 0x67452301 ;;;
  store_hash 1 0xEFCDAB89 ;;;
  store_hash 2 0x98BADCFE ;;;
  store_hash 3 0x10325476 ;;;
  store_hash 4 0xC3D2E1F0 ;;;
  off <- hash_blocks (S (Z.to_nat len)) message len 0 ;;
  hash_tail message len off.

(** A call from C: the array [hash] holds [hash0] on entry. *)
Definition start (hash0 : state5) : machine := Machine hash0 [] [].

Definition digest (message : list Z) (len : Z) (hash0 : state5)
  : result state5 :=
  match sha1_hash message len (start hash0) with
  | Ok (_, m) => Ok (hash m)
  | OutOfBounds => OutOfBounds
  | OutOfFuel => OutOfFuel
  end.

(** ** The self-check *)

Record testcase : Type := Testcase { answer : state5; message : list Z }.

(** A string literal as the bytes it occupies, terminating NUL included. *)
Definition cstring (s : string) : list Z :=
  map (fun c => Z.of_N (N_of_ascii c)) (list_ascii_of_string s) ++ [0].

Definition TESTCASE (a b c d e : Z) (msg : string) : testcase :=
  Testcase (State5 a b c d e) (cstring msg).

Definition testCases : list testcase := [
  TESTCASE 0xDA39A3EE 0x5E6B4B0D 0x3255BFEF 0x95601890 0xAFD80709 "";
  TESTCASE 0x86F7E437 0xFAA5A7FC 0xE15D1DDC 0xB9EAEAEA 0x377667B8 "a";
  TESTCASE 0xA9993E36 0x4706816A 0xBA3E2571 0x7850C26C 0x9CD0D89D "abc";
  TESTCASE 0xC12252CE 0xDA8BE899 0x4D5FA029 0x0A47231C 0x1D16AAE3 "message digest";
  TESTCASE 0x32D10C7B 0x8CF96570 0xCA04CE37 0xF2A19D84 0x240D3A89 "abcdefghijklmnopqrstuvwxyz";
  TESTCASE 0x84983E44 0x1C3BD26E 0xBAAE4AA1 0xF95129E5 0xE54670F1
    "abcdbcdecdefdefgefghfghighijhijkijkljklmklmnlmnomnopnopq"
].

(** [strlen]: the number of bytes before the first NUL. *)
Fixpoint strlen (s : list Z) : result Z :=
  match s with
  | [] => OutOfBounds
  | c :: s' =>
      if c =? 0 then Ok 0
      else match strlen s' with
           | Ok n => Ok (n + 1)
           | OutOfBounds => OutOfBounds
           | OutOfFuel => OutOfFuel
           end
  end.

(** The loop of [self_check] over the remaining table entries.  The
    local array [hash] is not initialised; [junk] is what it holds. *)
Fixpoint self_check_from (junk : state5) (tcs : list testcase) : result bool :=
  match tcs with
  | [] => Ok true
  | tc :: tcs' =>
      match strlen (message tc) with
      | Ok n =>
          match digest (message tc) n junk with
          | Ok h =>
              if negb (state5_eqb h (answer tc)) then Ok false
              else self_check_from junk tcs'
          | OutOfBounds => OutOfBounds
          | OutOfFuel => OutOfFuel
          end
      | OutOfBounds => OutOfBounds
      | OutOfFuel => OutOfFuel
      end
  end.

Definition self_check (junk : state5) : result bool :=
  self_check_from junk testCases.

End Driver.

(** ** The main program *)

Definition EXIT_SUCCESS : Z := 0.
Definition EXIT_FAILURE : Z := 1.

(** What [main] prints.  The speed line is kept as the elapsed clock
    ticks it is computed from; its formatting is not modelled. *)
Definition newline : string := String (ascii_of_nat 10) EmptyString.

Inductive output : Type :=
| Printf (s : string)
| PrintfSpeed (ticks : Z).

Record outcome : Type := Outcome {
  status : Z;
  stdout : list output;
  bench_calls : list (state5 * list Z)
}.

Definition N_BENCH : Z := 10000000.

Section Main.

Variable sha1_compress : state5 -> list Z -> state5.

(** [for (int i = 0; i < N; i++) sha1_compress(state, block);] run on a
    machine whose array is the local [state] of [main]. *)
Fixpoint bench_loop (fuel : nat) (i n : Z) (block : list Z) : M unit :=
  if i <? n then
    match fuel with
    | O => fail_fuel
    | S fuel' =>
        call_compress sha1_compress BlockPtr block ;;;
        bench_loop fuel' (i + 1) n block
    end
  else ret tt.

(** The benchmark of [main]: [N] calls on an all-zero block. *)
Definition benchmark : M unit :=
  bench_loop (Z.to_nat N_BENCH) 0 N_BENCH (replicate 64 0).

(** The speed line and the successful return that follow the benchmark. *)
Definition report (ticks : Z) (r : result (unit * machine)) : result outcome :=
  match r with
  | Ok (_, m) =>
      Ok (Outcome EXIT_SUCCESS
            [Printf ("Self-check passed" ++ newline); PrintfSpeed ticks] (calls m))
  | OutOfBounds => OutOfBounds
  | OutOfFuel => OutOfFuel
  end.

Definition main (junk : state5) (start_time end_time : Z) : result outcome :=
  match self_check sha1_compress junk with
  | Ok passed =>
      if negb passed then
        Ok (Outcome EXIT_FAILURE [Printf ("Self-check failed" ++ newline)] [])
      else
        let state := State5 0 0 0 0 0 in
        report (end_time - start_time) (benchmark (start state))
  | OutOfBounds => OutOfBounds
  | OutOfFuel => OutOfFuel
  end.

End Main.

(** ** The compression function *)

(** Rotate-left on a 32-bit word: [(x << n) | (x >> (32 - n))]. *)
Definition rotl32 (x n : Z) : Z :=
  Z.lor (u32 (Z.shiftl x n)) (Z.shiftr x (32 - n)).

Definition be32 (b0 b1 b2 b3 : Z) : Z :=
  Z.lor (Z.lor (Z.lor (Z.shiftl b0 24) (Z.shiftl b1 16)) (Z.shiftl b2 8)) b3.

(** Step 1: the block as 16 big-endian words. *)
Definition block_words (block : list Z) : list Z :=
  (fun i : nat => be32 (block !!! (4 * i)%nat) (block !!! (4 * i + 1)%nat)
                       (block !!! (4 * i + 2)%nat) (block !!! (4 * i + 3)%nat))
    <$> seq 0 16.

(** Step 2: one more schedule word at the end of [w], [n] times. *)
Fixpoint expand (n : nat) (w : list Z) : list Z :=
  match n with
  | O => w
  | S n' =>
      let i := length w in
      let x := Z.lxor (Z.lxor (Z.lxor (w !!! (i - 3)%nat) (w !!! (i - 8)%nat))
                              (w !!! (i - 14)%nat)) (w !!! (i - 16)%nat) in
      expand n' (w ++ [rotl32 x 1])
  end.

Definition schedule (block : list Z) : list Z := expand 64 (block_words block).

(** Step 4: the round function and constant selected by the round. *)
Definition round_f (i : nat) (b c d : Z) : Z :=
  if (i <? 20)%nat then Z.lor (Z.land b c) (Z.land (u32 (Z.lnot b)) d)
  else if (i <? 40)%nat then Z.lxor (Z.lxor b c) d
  else if (i <? 60)%nat then Z.lor (Z.lor (Z.land b c) (Z.land b d)) (Z.land c d)
  else Z.lxor (Z.lxor b c) d.

Definition round_k (i : nat) : Z :=
  if (i <? 20)%nat then 0x5A827999
  else if (i <? 40)%nat then 0x6ED9EBA1
  else if (i <? 60)%nat then 0x8F1BBCDC
  else 0xCA62C1D6.

Definition round (w : list Z) (s : state5) (i : nat) : state5 :=
  let '(State5 a b c d e) := s in
  State5 (u32 (rotl32 a 5 + round_f i b c d + e + round_k i + w !!! i))
         a (rotl32 b 30) c d.

(** Modelled from the spec: the compression function [sha1_compress],
    which the C file only declares [extern]; this follows section 4.1
    of the design document step by step. *)
Definition compress (state : state5) (block : list Z) : state5 :=
  let w := schedule block in
  let '(State5 a b c d e) := fold_left (round w) (seq 0 80) state in
  State5 (u32 (h0 state + a)) (u32 (h1 state + b)) (u32 (h2 state + c))
         (u32 (h3 state + d)) (u32 (h4 state + e)).

(** ** What the driver is expected to feed to the compression function *)

(** The eight bytes of a 64-bit value, most significant first. *)
Definition be64 (n : Z) : list Z :=
  (fun k : Z => Z.land (Z.shiftr n (8 * (7 - k))) 0xFF) <$> seqZ 0 8.

(** [q] consecutive 64-byte pieces of [message] starting at [off]. *)
Fixpoint chunks (message : list Z) (off : Z) (q : nat) : list (list Z) :=
  match q with
  | O => []
  | S q' => take 64 (drop (Z.to_nat off) message) :: chunks message (off + 64) q'
  end.

(** The final one or two blocks for a tail of fewer than 64 bytes. *)
Definition pad_blocks (tail : list Z) (len : Z) : list (list Z) :=
  let r := length tail in
  if (r <=? 55)%nat
  then [tail ++ 0x80 :: replicate (55 - r) 0 ++ be64 (size_t (len * 8))]
  else [tail ++ 0x80 :: replicate (63 - r) 0;
        replicate 56 0 ++ be64 (size_t (len * 8))].

(** The call log of feeding [blocks] in order, the state threaded. *)
Fixpoint thread (f : state5 -> list Z -> state5) (s : state5)
  (blocks : list (list Z)) : list (state5 * list Z) :=
  match blocks with
  | [] => []
  | b :: bs => (s, b) :: thread f (f s b) bs
  end.

Definition IV : state5 :=
  State5 0x67452301 0xEFCDAB89 0x98BADCFE 0x10325476 0xC3D2E1F0.

(** The memory events of the padding step for a tail of [r] bytes that
    starts at [off]: the initialiser of [block], the copy of the tail,
    the 0x80 byte, for a long tail the extra call and the clearing of
    [block], the eight stores of the length field, the last call. *)
Definition tail_trace (off r : Z) : list event :=
  (WriteBlock <$> seqZ 0 64) ++
  (ReadMessage <$> seqZ off r) ++
  (WriteBlock <$> seqZ 0 r) ++
  [WriteBlock r] ++
  (if r <=? 55 then [] else Pass BlockPtr :: (WriteBlock <$> seqZ 0 64)) ++
  (WriteBlock <$> [63; 62; 61; 60; 59; 58; 57; 56]) ++
  [Pass BlockPtr].

(** The memory events of a whole run on [len] bytes. *)
Definition run_trace (len : Z) : list event :=
  (WriteHash <$> seqZ 0 5) ++
  ((fun k => Pass (MessagePtr (64 * k))) <$> seqZ 0 (len / 64)) ++
  tail_trace (64 * (len / 64)) (len mod 64).

(** ** Lemmas on the machine *)

Lemma size_t_small x : 0 <= x < 2 ^ 64 -> size_t x = x.
Proof. intros H. unfold size_t, SIZE_BITS. apply Z.mod_small. exact H. Qed.

Lemma bind_ok {A B} (c : M A) (k : A -> M B) m a m' :
  c m = Ok (a, m') -> bind c k m = k a m'.
Proof. intros H. unfold bind. rewrite H. reflexivity. Qed.

Lemma thread_app f s bs1 bs2 :
  thread f s (bs1 ++ bs2) = thread f s bs1 ++ thread f (fold_left f bs1 s) bs2.
Proof.
  revert s. induction bs1 as [|b bs1 IH]; intros s; simpl; [reflexivity|].
  rewrite IH. reflexivity.
Qed.

Lemma thread_length f s bs : length (thread f s bs) = length bs.
Proof. revert s. induction bs as [|b bs IH]; intros s; simpl; auto. Qed.

Lemma thread_blocks f s bs : (thread f s bs).*2 = bs.
Proof. revert s. induction bs as [|b bs IH]; intros s; simpl; [|rewrite IH]; auto. Qed.

Lemma load_ok message : forall n off m,
  0 <= off -> off + Z.of_nat n <= Z.of_nat (length message) ->
  load message off n m =
    Ok (take n (drop (Z.to_nat off) message),
        log m (ReadMessage <$> seqZ off (Z.of_nat n))).
Proof.
  induction n as [|n IH]; intros off m Hoff Hlen.
  - cbn [load]. unfold ret, log. rewrite seqZ_nil by lia. cbn [fmap list_fmap].
    rewrite app_nil_r. destruct m; reflexivity.
  - destruct (lookup_lt_is_Some_2 message (Z.to_nat off)) as [b Hb]; [lia|].
    cbn [load].
    assert (Hrd : read_byte message off m = Ok (b, log m [ReadMessage off])).
    { unfold read_byte. destruct (Z.ltb_spec off 0); [lia|]. rewrite Hb. reflexivity. }
    rewrite (bind_ok _ _ _ _ _ Hrd).
    rewrite (bind_ok _ _ _ _ _ (IH (off + 1) _ ltac:(lia) ltac:(lia))).
    unfold ret, log. cbn [hash calls trace].
    rewrite (drop_S _ _ _ Hb). cbn [take].
    replace (Z.to_nat (off + 1)) with (S (Z.to_nat off)) by lia.
    rewrite <- app_assoc.
    rewrite (seqZ_cons off (Z.of_nat (S n))) by lia.
    replace (Z.pred (Z.of_nat (S n))) with (Z.of_nat n) by lia.
    replace (Z.succ off) with (off + 1) by lia.
    reflexivity.
Qed.

Lemma pass_offsets off (q : nat) :
  (fun k => Pass (MessagePtr (off + 64 * k))) <$> seqZ 0 (Z.of_nat (S q)) =
  Pass (MessagePtr off) ::
    ((fun k => Pass (MessagePtr (off + 64 + 64 * k))) <$> seqZ 0 (Z.of_nat q)).
Proof.
  rewrite seqZ_cons by lia. cbn [fmap list_fmap]. f_equal.
  - do 2 f_equal. lia.
  - replace (Z.pred (Z.of_nat (S q))) with (Z.of_nat q) by lia.
    change (Z.succ 0) with (1 + 0). rewrite <- fmap_add_seqZ, <- list_fmap_compose.
    apply list_fmap_ext. intros i k _. cbn. do 2 f_equal. lia.
Qed.

Section DriverFacts.

Variable sha1_compress : state5 -> list Z -> state5.

Lemma call_compress_ok p block m :
  call_compress sha1_compress p block m =
    Ok (tt, Machine (sha1_compress (hash m) block)
                    (calls m ++ [(hash m, block)]) (trace m ++ [Pass p])).
Proof. reflexivity. Qed.

Lemma hash_blocks_ok message len :
  0 <= len < 2 ^ 64 ->
  forall (q fuel : nat) off m r,
    0 <= off -> len - off = 64 * Z.of_nat q + r -> 0 <= r < 64 ->
    (q <= fuel)%nat ->
    hash_blocks sha1_compress fuel message len off m =
      Ok (off + 64 * Z.of_nat q,
          Machine (fold_left sha1_compress (chunks message off q) (hash m))
                  (calls m ++ thread sha1_compress (hash m) (chunks message off q))
                  (trace m ++
                   ((fun k => Pass (MessagePtr (off + 64 * k))) <$> seqZ 0 (Z.of_nat q)))).
Proof.
  intros Hlen. induction q as [|q IH]; intros fuel off m r Hoff Hq Hr Hfuel.
  - assert (Hc : (BLOCK_SIZE <=? size_t (len - off)) = false).
    { rewrite size_t_small by lia. apply Z.leb_gt. unfold BLOCK_SIZE. lia. }
    destruct fuel; cbn [hash_blocks]; rewrite Hc; unfold ret; cbn [chunks thread fold_left];
      rewrite seqZ_nil by lia; cbn [fmap list_fmap];
      rewrite !app_nil_r, Z.add_0_r; destruct m; reflexivity.
  - assert (Hc : (BLOCK_SIZE <=? size_t (len - off)) = true).
    { rewrite size_t_small by lia. apply Z.leb_le. unfold BLOCK_SIZE. lia. }
    destruct fuel as [|fuel]; [lia|].
    cbn [hash_blocks]. rewrite Hc.
    erewrite bind_ok by apply call_compress_ok.
    unfold BLOCK_SIZE at 1. rewrite size_t_small by lia.
    rewrite (IH fuel (off + 64) _ r ltac:(lia) ltac:(lia) Hr ltac:(lia)).
    cbn [hash calls trace chunks thread fold_left].
    change (window message off) with (take 64 (drop (Z.to_nat off) message)).
    f_equal. f_equal; [lia|].
    f_equal.
    + rewrite <- app_assoc. reflexivity.
    + rewrite <- app_assoc. f_equal. rewrite pass_offsets. reflexivity.
Qed.

End DriverFacts.

(** ** The length field *)

Lemma be64_bytes n :
  be64 n = [Z.land (Z.shiftr n 56) 0xFF; Z.land (Z.shiftr n 48) 0xFF;
            Z.land (Z.shiftr n 40) 0xFF; Z.land (Z.shiftr n 32) 0xFF;
            Z.land (Z.shiftr n 24) 0xFF; Z.land (Z.shiftr n 16) 0xFF;
            Z.land (Z.shiftr n 8) 0xFF; Z.land (Z.shiftr n 0) 0xFF].
Proof. reflexivity. Qed.

Lemma length_byte_high len j :
  3 <= j -> j + 8 <= 64 ->
  u8 (Z.land (Z.shiftr len (j - 3)) 0xFF) =
  Z.land (Z.shiftr (size_t (len * 8)) j) 0xFF.
Proof.
  intros Hj1 Hj2. unfold u8, size_t, SIZE_BITS.
  change 0xFF with (Z.ones 8). rewrite !Z.land_ones by lia.
  rewrite Z.mod_mod by lia.
  apply Z.bits_inj'. intros n Hn.
  rewrite !Z.testbit_mod_pow2 by lia.
  destruct (Z.ltb_spec n 8); [|reflexivity]. cbn [andb].
  rewrite !Z.shiftr_spec by lia.
  rewrite Z.testbit_mod_pow2 by lia.
  destruct (Z.ltb_spec (n + j) 64); [|lia]. cbn [andb].
  change 8 with (2 ^ 3). rewrite <- Z.shiftl_mul_pow2 by lia.
  rewrite Z.shiftl_spec by lia. f_equal. lia.
Qed.

Lemma length_byte_low len :
  u8 (Z.shiftl (Z.land len 0x1F) 3) =
  Z.land (Z.shiftr (size_t (len * 8)) 0) 0xFF.
Proof.
  unfold u8, size_t, SIZE_BITS. rewrite Z.shiftr_0_r.
  change 0xFF with (Z.ones 8). change 0x1F with (Z.ones 5).
  rewrite !Z.land_ones by lia.
  apply Z.bits_inj'. intros n Hn.
  rewrite !Z.testbit_mod_pow2 by lia.
  destruct (Z.ltb_spec n 8); [|reflexivity]. cbn [andb].
  destruct (Z.ltb_spec n 64); [|lia]. cbn [andb].
  change 8 with (2 ^ 3). rewrite <- Z.shiftl_mul_pow2 by lia.
  rewrite !Z.shiftl_spec by lia.
  destruct (Z.ltb_spec n 3).
  - rewrite !Z.testbit_neg_r by lia. reflexivity.
  - rewrite Z.testbit_mod_pow2 by lia.
    destruct (Z.ltb_spec (n - 3) 5); [|lia]. reflexivity.
Qed.

Lemma store_block_tail (pre l : list Z) (k : nat) v m :
  length pre = 56%nat -> length l = 8%nat -> (k < 8)%nat ->
  store_block (pre ++ l) (56 + Z.of_nat k) v m =
    Ok (pre ++ <[k := v]> l, log m [WriteBlock (56 + Z.of_nat k)]).
Proof.
  intros Hpre Hl Hk. unfold store_block.
  rewrite length_app, Hpre, Hl.
  destruct (Z.leb_spec 0 (56 + Z.of_nat k)); [|lia].
  destruct (Z.ltb_spec (56 + Z.of_nat k) (Z.of_nat (56 + 8))); [|lia].
  cbn [andb].
  replace (Z.to_nat (56 + Z.of_nat k)) with (length pre + k)%nat by lia.
  rewrite insert_app_r. reflexivity.
Qed.

Lemma split_at_56 (block : list Z) :
  length block = 64%nat ->
  exists a0 a1 a2 a3 a4 a5 a6 a7,
    block = take 56 block ++ [a0; a1; a2; a3; a4; a5; a6; a7].
Proof.
  intros Hlen.
  assert (Hd : length (drop 56 block) = 8%nat) by (rewrite length_drop; lia).
  destruct (drop 56 block) as [|a0 [|a1 [|a2 [|a3 [|a4 [|a5 [|a6 [|a7 [|]]]]]]]]] eqn:E;
    try discriminate Hd.
  exists a0, a1, a2, a3, a4, a5, a6, a7.
  rewrite <- E. symmetry. apply take_drop.
Qed.

Lemma inserts_8 (a0 a1 a2 a3 a4 a5 a6 a7 v0 v1 v2 v3 v4 v5 v6 v7 : Z) :
  <[0%nat := v7]> (<[1%nat := v6]> (<[2%nat := v5]> (<[3%nat := v4]>
    (<[4%nat := v3]> (<[5%nat := v2]> (<[6%nat := v1]> (<[7%nat := v0]>
      [a0; a1; a2; a3; a4; a5; a6; a7])))))))
  = [v7; v6; v5; v4; v3; v2; v1; v0].
Proof. reflexivity. Qed.

Lemma encode_length_ok (block : list Z) len m :
  length block = 64%nat ->
  encode_length block len m =
    Ok (take 56 block ++ be64 (size_t (len * 8)),
        log m (WriteBlock <$> [63; 62; 61; 60; 59; 58; 57; 56])).
Proof.
  intros Hlen.
  destruct (split_at_56 block Hlen) as (a0 & a1 & a2 & a3 & a4 & a5 & a6 & a7 & E).
  assert (Hpre : length (take 56 block) = 56%nat) by (rewrite length_take; lia).
  set (pre := take 56 block) in *. clearbody pre. subst block.
  unfold encode_length.
  change (BLOCK_SIZE - 1) with (56 + Z.of_nat 7).
  erewrite bind_ok by (apply (store_block_tail pre _ 7); [exact Hpre | reflexivity | lia]).
  change (Z.to_nat LENGTH_SIZE) with 8%nat.
  cbn [length_loop].
  change (1 <? LENGTH_SIZE) with true. cbv iota.
  change (BLOCK_SIZE - 1 - 1) with (56 + Z.of_nat 6).
  erewrite bind_ok by (apply (store_block_tail pre _ 6); [exact Hpre | reflexivity | lia]).
  change (1 + 1 <? LENGTH_SIZE) with true. cbv iota.
  change (BLOCK_SIZE - 1 - (1 + 1)) with (56 + Z.of_nat 5).
  erewrite bind_ok by (apply (store_block_tail pre _ 5); [exact Hpre | reflexivity | lia]).
  change (1 + 1 + 1 <? LENGTH_SIZE) with true. cbv iota.
  change (BLOCK_SIZE - 1 - (1 + 1 + 1)) with (56 + Z.of_nat 4).
  erewrite bind_ok by (apply (store_block_tail pre _ 4); [exact Hpre | reflexivity | lia]).
  change (1 + 1 + 1 + 1 <? LENGTH_SIZE) with true. cbv iota.
  change (BLOCK_SIZE - 1 - (1 + 1 + 1 + 1)) with (56 + Z.of_nat 3).
  erewrite bind_ok by (apply (store_block_tail pre _ 3); [exact Hpre | reflexivity | lia]).
  change (1 + 1 + 1 + 1 + 1 <? LENGTH_SIZE) with true. cbv iota.
  change (BLOCK_SIZE - 1 - (1 + 1 + 1 + 1 + 1)) with (56 + Z.of_nat 2).
  erewrite bind_ok by (apply (store_block_tail pre _ 2); [exact Hpre | reflexivity | lia]).
  change (1 + 1 + 1 + 1 + 1 + 1 <? LENGTH_SIZE) with true. cbv iota.
  change (BLOCK_SIZE - 1 - (1 + 1 + 1 + 1 + 1 + 1)) with (56 + Z.of_nat 1).
  erewrite bind_ok by (apply (store_block_tail pre _ 1); [exact Hpre | reflexivity | lia]).
  change (1 + 1 + 1 + 1 + 1 + 1 + 1 <? LENGTH_SIZE) with true. cbv iota.
  change (BLOCK_SIZE - 1 - (1 + 1 + 1 + 1 + 1 + 1 + 1)) with (56 + Z.of_nat 0).
  erewrite bind_ok by (apply (store_block_tail pre _ 0); [exact Hpre | reflexivity | lia]).
  change (1 + 1 + 1 + 1 + 1 + 1 + 1 + 1 <? LENGTH_SIZE) with false. cbv iota.
  unfold ret. rewrite inserts_8, be64_bytes.
  rewrite !Z.shiftr_shiftr by lia.
  f_equal. f_equal; [|unfold log; cbn [hash calls trace]; rewrite <- !app_assoc; reflexivity].
  f_equal.
  repeat (f_equal; [first [ apply (length_byte_high len 56); lia
                          | apply (length_byte_high len 48); lia
                          | apply (length_byte_high len 40); lia
                          | apply (length_byte_high len 32); lia
                          | apply (length_byte_high len 24); lia
                          | apply (length_byte_high len 16); lia
                          | apply (length_byte_high len 8); lia ]|]).
  f_equal. apply length_byte_low.
Qed.

(** ** The tail and the whole hasher *)

Section HasherFacts.

Variable sha1_compress : state5 -> list Z -> state5.

Lemma hash_tail_ok message len off m (r : nat) :
  0 <= len < 2 ^ 64 -> len <= Z.of_nat (length message) ->
  0 <= off -> len - off = Z.of_nat r -> (r < 64)%nat ->
  let tail := take r (drop (Z.to_nat off) message) in
  hash_tail sha1_compress message len off m =
    Ok (tt, Machine (fold_left sha1_compress (pad_blocks tail len) (hash m))
                    (calls m ++ thread sha1_compress (hash m) (pad_blocks tail len))
                    (trace m ++ tail_trace off (len - off))).
Proof.
  intros Hlen Hmsg Hoff Hr Hr64 tail.
  assert (Htl : length tail = r).
  { unfold tail. rewrite length_take, length_drop. lia. }
  unfold hash_tail.
  erewrite bind_ok by reflexivity.
  rewrite (size_t_small (len - off)) by lia.
  rewrite Hr, Nat2Z.id.
  rewrite (bind_ok _ _ _ _ _ (load_ok message r off _ Hoff ltac:(lia))).
  fold tail.
  change (Z.to_nat BLOCK_SIZE) with 64%nat. change BLOCK_SIZE with 64.
  assert (Hcpy : forall m', memcpy (replicate 64 0) tail m' =
                   Ok (tail ++ replicate (64 - r) 0,
                       log m' (WriteBlock <$> seqZ 0 (Z.of_nat r)))).
  { intros m'. unfold memcpy. rewrite Htl, length_replicate.
    destruct (Nat.leb_spec r 64); [|lia].
    rewrite drop_replicate. reflexivity. }
  rewrite (bind_ok _ _ _ _ _ (Hcpy _)).
  assert (Hst : forall m', store_block (tail ++ replicate (64 - r) 0) (Z.of_nat r) 0x80 m' =
                   Ok (tail ++ 0x80 :: replicate (63 - r) 0,
                       log m' [WriteBlock (Z.of_nat r)])).
  { intros m'. unfold store_block.
    rewrite length_app, Htl, length_replicate.
    destruct (Z.leb_spec 0 (Z.of_nat r)); [|lia].
    destruct (Z.ltb_spec (Z.of_nat r) (Z.of_nat (r + (64 - r)))); [|lia].
    cbn [andb]. rewrite Nat2Z.id.
    replace (64 - r)%nat with (S (63 - r)) by lia.
    rewrite <- Htl at 1. rewrite <- (Nat.add_0_r (length tail)).
    rewrite insert_app_r. reflexivity. }
  rewrite (bind_ok _ _ _ _ _ (Hst _)).
  rewrite (size_t_small (Z.of_nat r + 1)) by lia.
  rewrite (size_t_small (64 - (Z.of_nat r + 1))) by lia.
  assert (Hfull : length (tail ++ 0x80 :: replicate (63 - r) 0) = 64%nat).
  { rewrite length_app, Htl. cbn [length]. rewrite length_replicate. lia. }
  unfold pad_blocks, tail_trace. rewrite Htl. unfold LENGTH_SIZE.
  destruct (Z.ltb_spec (64 - (Z.of_nat r + 1)) 8) as [Hc|Hc];
    destruct (Nat.leb_spec r 55) as [Hn|Hn]; try lia;
    destruct (Z.leb_spec (Z.of_nat r) 55) as [Hz|Hz]; try lia.
  - (* the tail leaves no room for the length: two blocks *)
    erewrite bind_ok; cycle 1.
    { erewrite bind_ok by apply call_compress_ok.
      unfold memset0. rewrite Hfull. reflexivity. }
    erewrite bind_ok by (apply encode_length_ok; apply length_replicate).
    rewrite call_compress_ok. unfold log. cbn [hash calls trace thread fold_left].
    rewrite take_replicate. change (56 `min` 64)%nat with 56%nat.
    rewrite <- !app_assoc. reflexivity.
  - (* one block holds tail, 0x80 and length *)
    erewrite bind_ok by reflexivity.
    erewrite bind_ok by (apply encode_length_ok; exact Hfull).
    rewrite call_compress_ok. unfold log. cbn [hash calls trace thread fold_left].
    assert (Htk : take 56 (tail ++ 0x80 :: replicate (63 - r) 0) =
                  tail ++ 0x80 :: replicate (55 - r) 0).
    { rewrite take_app, Htl.
      rewrite take_ge by lia.
      replace (56 - r)%nat with (S (55 - r)) by lia.
      cbn [take]. rewrite take_replicate.
      replace ((55 - r) `min` (63 - r))%nat with (55 - r)%nat by lia.
      reflexivity. }
    rewrite Htk. rewrite <- !app_assoc. reflexivity.
Qed.

Lemma sha1_hash_ok message len hash0 :
  0 <= len < 2 ^ 64 -> len <= Z.of_nat (length message) ->
  let q := Z.to_nat (len / 64) in
  let tail := take (Z.to_nat (len mod 64)) (drop (64 * q) message) in
  let blocks := chunks message 0 q ++ pad_blocks tail len in
  sha1_hash sha1_compress message len (start hash0) =
    Ok (tt, Machine (fold_left sha1_compress blocks IV)
                    (thread sha1_compress IV blocks)
                    (run_trace len)).
Proof.
  intros Hlen Hmsg q tail blocks.
  pose proof (Z.div_mod len 64 ltac:(lia)) as Hdm.
  pose proof (Z.mod_pos_bound len 64 ltac:(lia)) as Hmod.
  assert (Hq : Z.of_nat q = len / 64).
  { unfold q. rewrite Z2Nat.id; [reflexivity|]. apply Z.div_pos; lia. }
  unfold sha1_hash.
  do 5 (erewrite bind_ok by reflexivity).
  erewrite bind_ok; cycle 1.
  { apply (hash_blocks_ok sha1_compress message len Hlen q _ 0 _ (len mod 64));
      lia. }
  cbn [hash calls trace start app].
  rewrite (hash_tail_ok message len _ _ (Z.to_nat (len mod 64)) Hlen Hmsg); try lia.
  cbn [hash calls trace].
  replace (Z.to_nat (0 + 64 * Z.of_nat q)) with (64 * q)%nat by lia.
  fold tail. unfold blocks.
  rewrite thread_app, fold_left_app.
  f_equal. f_equal. f_equal.
  unfold run_trace. rewrite Hq.
  change (WriteHash <$> seqZ 0 5)
    with [WriteHash 0; WriteHash 1; WriteHash 2; WriteHash 3; WriteHash 4].
  cbn [app]. do 5 f_equal. f_equal.
  all: first [apply list_fmap_ext; intros i k _; reflexivity | f_equal; lia].
Qed.

End HasherFacts.

(** ** Facts on call logs and blocks *)

Lemma thread_lookup f s bs i :
  thread f s bs !! i = (fun b => (fold_left f (take i bs) s, b)) <$> (bs !! i).
Proof.
  revert s i. induction bs as [|b bs IH]; intros s i.
  - destruct i; reflexivity.
  - destruct i as [|i]; [reflexivity|]. cbn [thread]. cbn. apply IH.
Qed.

Lemma thread_head f s bs s' b :
  head (thread f s bs) = Some (s', b) -> s' = s.
Proof. destruct bs; simpl; congruence. Qed.

Lemma thread_succ f s bs i si bi sj bj :
  thread f s bs !! i = Some (si, bi) ->
  thread f s bs !! S i = Some (sj, bj) ->
  sj = f si bi.
Proof.
  rewrite !thread_lookup. intros Hi Hj.
  destruct (bs !! i) as [x|] eqn:Ei; [|discriminate].
  destruct (bs !! S i) as [y|] eqn:Ej; [|discriminate].
  cbn in Hi, Hj. inversion Hi; subst. inversion Hj; subst.
  rewrite (take_S_r _ _ _ Ei), fold_left_app. reflexivity.
Qed.

Lemma thread_last f s bs :
  bs <> [] ->
  exists s' b, last (thread f s bs) = Some (s', b) /\ fold_left f bs s = f s' b.
Proof.
  revert s. induction bs as [|b bs IH]; intros s Hne; [congruence|].
  destruct bs as [|b' bs].
  - exists s, b. split; reflexivity.
  - destruct (IH (f s b) ltac:(discriminate)) as (s' & b'' & Hl & Hf).
    exists s', b''. split; [|exact Hf].
    cbn [thread] in *. rewrite last_cons. rewrite Hl. reflexivity.
Qed.

Lemma chunks_length message off q : length (chunks message off q) = q.
Proof. revert off. induction q as [|q IH]; intros off; simpl; auto. Qed.

Lemma chunks_lookup message q : forall off (k : nat),
  0 <= off -> (k < q)%nat ->
  chunks message off q !! k =
    Some (take 64 (drop (Z.to_nat off + 64 * k) message)).
Proof.
  induction q as [|q IH]; intros off k Hoff Hk; [lia|].
  destruct k as [|k]; cbn [chunks].
  - cbn. rewrite Nat.add_0_r. reflexivity.
  - cbn [lookup list_lookup]. change ((take 64 (drop (Z.to_nat off) message) :: chunks message (off + 64) q) !! S k)
      with (chunks message (off + 64) q !! k).
    rewrite IH by lia. do 3 f_equal. lia.
Qed.

Lemma pad_blocks_cases (tail : list Z) len :
  (length tail < 64)%nat ->
  exists L, L = be64 (size_t (len * 8)) /\ length L = 8%nat /\
    ((length tail <= 55)%nat /\
       pad_blocks tail len =
         [tail ++ 0x80 :: replicate (55 - length tail) 0 ++ L]
     \/ (56 <= length tail)%nat /\
       pad_blocks tail len =
         [tail ++ 0x80 :: replicate (63 - length tail) 0; replicate 56 0 ++ L]).
Proof.
  intros Hlt. exists (be64 (size_t (len * 8))).
  split; [reflexivity|]. split; [reflexivity|].
  unfold pad_blocks. destruct (Nat.leb_spec (length tail) 55); [left|right]; split; auto; lia.
Qed.

Lemma pad_blocks_length (tail : list Z) len :
  length (pad_blocks tail len) = if (length tail <=? 55)%nat then 1%nat else 2%nat.
Proof. unfold pad_blocks. destruct (length tail <=? 55)%nat; reflexivity. Qed.

Lemma tail_length (message : list Z) len :
  0 <= len <= Z.of_nat (length message) ->
  length (take (Z.to_nat (len mod 64)) (drop (64 * Z.to_nat (len / 64)) message))
  = Z.to_nat (len mod 64).
Proof.
  intros H. rewrite length_take, length_drop.
  pose proof (Z.div_mod len 64 ltac:(lia)).
  pose proof (Z.mod_pos_bound len 64 ltac:(lia)).
  assert (0 <= len / 64) by (apply Z.div_pos; lia).
  lia.
Qed.

Lemma state5_eqb_eq x y : state5_eqb x y = true <-> x = y.
Proof.
  destruct x, y. unfold state5_eqb. cbn [h0 h1 h2 h3 h4].
  rewrite !andb_true_iff, !Z.eqb_eq. split.
  - intros [[[[-> ->] ->] ->] ->]. reflexivity.
  - intros E. inversion E. auto.
Qed.

Lemma digest_ok f message len hash0 :
  0 <= len < 2 ^ 64 -> len <= Z.of_nat (length message) ->
  digest f message len hash0 =
    Ok (fold_left f
          (chunks message 0 (Z.to_nat (len / 64)) ++
           pad_blocks (take (Z.to_nat (len mod 64))
                            (drop (64 * Z.to_nat (len / 64)) message)) len) IV).
Proof.
  intros H1 H2. unfold digest. rewrite (sha1_hash_ok f message len hash0 H1 H2).
  reflexivity.
Qed.

(** ** The claims on the driver *)

(** C6: whatever the caller's array holds on entry, [sha1_hash] first
    stores the five constants 0x67452301, 0xEFCDAB89, 0x98BADCFE,
    0x10325476, 0xC3D2E1F0 into it, in that order, while the log of
    compression calls is still empty and the five stores are all that
    has happened; the rest of the run starts from that machine, so the
    outcome and the digest do not depend on the prior contents of the
    array. *)
Theorem C6_initial_state :
  forall f message len hash0 hash0',
    sha1_hash f message len (start hash0) =
      (off <- hash_blocks f (S (Z.to_nat len)) message len 0 ;;
       hash_tail f message len off)
        (Machine (State5 0x67452301 0xEFCDAB89 0x98BADCFE 0x10325476 0xC3D2E1F0)
                 []
                 [WriteHash 0; WriteHash 1; WriteHash 2; WriteHash 3; WriteHash 4])
    /\ sha1_hash f message len (start hash0) = sha1_hash f message len (start hash0')
    /\ digest f message len hash0 = digest f message len hash0'.
Proof.
  intros f message len hash0 hash0'.
  assert (E : forall h, sha1_hash f message len (start h) =
      (off <- hash_blocks f (S (Z.to_nat len)) message len 0 ;;
       hash_tail f message len off)
        (Machine (State5 0x67452301 0xEFCDAB89 0x98BADCFE 0x10325476 0xC3D2E1F0)
                 []
                 [WriteHash 0; WriteHash 1; WriteHash 2; WriteHash 3; WriteHash 4])).
  { intros h. unfold sha1_hash. do 5 (erewrite bind_ok by reflexivity). reflexivity. }
  split; [apply E|]. split.
  - rewrite !E. reflexivity.
  - unfold digest. rewrite !E. reflexivity.
Qed.

(** C4: for a message of [len] bytes, the loop of [sha1_hash] calls the
    compression function on exactly [len / 64] blocks, the k-th being
    the bytes [64k .. 64k+63] of the message, and leaves [off] at
    [64 * (len / 64)]; the padding step then runs once, on the
    remaining [len mod 64] bytes and the original [len], and adds one
    or two calls.  The first call starts from the initial constants,
    every later call starts from the state the previous one produced,
    and the digest is the state produced by the last call. *)
Theorem C4_blocks_then_padding :
  forall f message len hash0,
    0 <= len < 2 ^ 64 -> len <= Z.of_nat (length message) ->
    let q := Z.to_nat (len / 64) in
    exists m_loop m,
      hash_blocks f (S (Z.to_nat len)) message len 0
        (Machine IV [] [WriteHash 0; WriteHash 1; WriteHash 2; WriteHash 3; WriteHash 4]) =
        Ok (64 * Z.of_nat q, m_loop)
      /\ length (calls m_loop) = q
      /\ (forall k : nat, (k < q)%nat ->
            exists s, calls m_loop !! k = Some (s, take 64 (drop (64 * k) message)))
      /\ len - 64 * Z.of_nat q = len mod 64
      /\ hash_tail f message len (64 * Z.of_nat q) m_loop = Ok (tt, m)
      /\ sha1_hash f message len (start hash0) = Ok (tt, m)
      /\ take q (calls m) = calls m_loop
      /\ (q + 1 <= length (calls m) <= q + 2)%nat
      /\ (exists b, head (calls m) = Some (IV, b))
      /\ (forall (i : nat) s b s' b',
            calls m !! i = Some (s, b) -> calls m !! S i = Some (s', b') ->
            s' = f s b)
      /\ (exists s b, last (calls m) = Some (s, b) /\ hash m = f s b).
Proof.
  intros f message len hash0 Hlen Hmsg q.
  pose proof (Z.div_mod len 64 ltac:(lia)) as Hdm.
  pose proof (Z.mod_pos_bound len 64 ltac:(lia)) as Hmod.
  assert (Hq : Z.of_nat q = len / 64).
  { unfold q. rewrite Z2Nat.id; [reflexivity|]. apply Z.div_pos; lia. }
  set (tail := take (Z.to_nat (len mod 64)) (drop (64 * q) message)).
  assert (Htl : length tail = Z.to_nat (len mod 64)) by (apply tail_length; lia).
  set (cs := chunks message 0 q).
  set (ps := pad_blocks tail len).
  pose proof (hash_blocks_ok f message len Hlen q (S (Z.to_nat len)) 0
                (Machine IV [] [WriteHash 0; WriteHash 1; WriteHash 2; WriteHash 3; WriteHash 4])
                (len mod 64) ltac:(lia) ltac:(lia) Hmod ltac:(lia)) as Hloop.
  cbn [hash calls trace app] in Hloop. fold cs in Hloop.
  pose proof (sha1_hash_ok f message len hash0 Hlen Hmsg) as Hrun.
  cbv zeta in Hrun. fold q in Hrun. fold tail in Hrun. fold cs in Hrun. fold ps in Hrun.
  eexists. exists (Machine (fold_left f (cs ++ ps) IV) (thread f IV (cs ++ ps)) (run_trace len)).
  assert (Hps : (1 <= length ps <= 2)%nat).
  { unfold ps. rewrite pad_blocks_length. destruct (length tail <=? 55)%nat; lia. }
  split; [exact Hloop|]. cbn [hash calls trace].
  split; [rewrite thread_length; apply chunks_length|].
  split.
  { intros k Hk. rewrite thread_lookup. unfold cs.
    rewrite (chunks_lookup message q 0 k) by lia. cbn. eauto. }
  split; [lia|].
  split.
  { rewrite <- Hrun. unfold sha1_hash.
    do 5 (erewrite bind_ok by reflexivity).
    erewrite bind_ok by exact Hloop. reflexivity. }
  split; [exact Hrun|].
  split.
  { rewrite thread_app. rewrite take_app_length'; [reflexivity|].
    rewrite thread_length. symmetry. apply chunks_length. }
  split.
  { rewrite thread_length, length_app. unfold cs. rewrite chunks_length. lia. }
  split.
  { destruct (cs ++ ps) as [|b bs] eqn:E.
    - apply (f_equal length) in E. rewrite length_app in E. simpl in E. lia.
    - exists b. reflexivity. }
  split.
  { intros i s b s' b'. apply thread_succ. }
  apply thread_last. intros E. apply (f_equal length) in E.
  rewrite length_app in E. simpl in E. lia.
Qed.

(** C4 at a message of 130 bytes: two full blocks, then the padding. *)
Lemma C4_blocks_then_padding_witness :
  0 <= 130 < 2 ^ 64 /\ 130 <= Z.of_nat (length (replicate 130 0x61)) /\
  exists m_loop m,
    hash_blocks compress (S (Z.to_nat 130)) (replicate 130 0x61) 130 0
      (Machine IV [] [WriteHash 0; WriteHash 1; WriteHash 2; WriteHash 3; WriteHash 4]) =
      Ok (64 * Z.of_nat (Z.to_nat (130 / 64)), m_loop)
    /\ length (calls m_loop) = Z.to_nat (130 / 64)
    /\ (forall k : nat, (k < Z.to_nat (130 / 64))%nat ->
          exists s, calls m_loop !! k =
                      Some (s, take 64 (drop (64 * k) (replicate 130 0x61))))
    /\ 130 - 64 * Z.of_nat (Z.to_nat (130 / 64)) = 130 mod 64
    /\ hash_tail compress (replicate 130 0x61) 130
         (64 * Z.of_nat (Z.to_nat (130 / 64))) m_loop = Ok (tt, m)
    /\ sha1_hash compress (replicate 130 0x61) 130 (start IV) = Ok (tt, m)
    /\ take (Z.to_nat (130 / 64)) (calls m) = calls m_loop
    /\ (Z.to_nat (130 / 64) + 1 <= length (calls m) <= Z.to_nat (130 / 64) + 2)%nat
    /\ (exists b, head (calls m) = Some (IV, b))
    /\ (forall (i : nat) s b s' b',
          calls m !! i = Some (s, b) -> calls m !! S i = Some (s', b') ->
          s' = compress s b)
    /\ (exists s b, last (calls m) = Some (s, b) /\ hash m = compress s b).
Proof.
  assert (H1 : 0 <= 130 < 2 ^ 64) by lia.
  assert (H2 : 130 <= Z.of_nat (length (replicate 130 0x61)))
    by (vm_compute; discriminate).
  split; [exact H1|]. split; [exact H2|].
  exact (C4_blocks_then_padding compress (replicate 130 0x61) 130 IV H1 H2).
Defined.

Lemma be64_lookup n k :
  0 <= k < 8 ->
  be64 n !! Z.to_nat (7 - k) = Some (n / 2 ^ (8 * k) mod 256).
Proof.
  intros Hk. rewrite be64_bytes.
  change 0xFF with (Z.ones 8). rewrite !Z.land_ones by lia.
  rewrite !Z.shiftr_div_pow2 by lia.
  assert (Hc : k = 0 \/ k = 1 \/ k = 2 \/ k = 3 \/ k = 4 \/ k = 5 \/ k = 6 \/ k = 7) by lia.
  destruct Hc as [->|[->|[->|[->|[->|[->|[->| ->]]]]]]]; reflexivity.
Qed.

Lemma pad_blocks_last (tail : list Z) len :
  (length tail < 64)%nat ->
  exists pre, length pre = 56%nat /\
    last (pad_blocks tail len) = Some (pre ++ be64 (size_t (len * 8))).
Proof.
  intros Hlt. unfold pad_blocks.
  destruct (Nat.leb_spec (length tail) 55).
  - exists (tail ++ 0x80 :: replicate (55 - length tail) 0). split.
    + rewrite length_app. cbn [length]. rewrite length_replicate. lia.
    + cbn [last]. rewrite <- app_assoc. reflexivity.
  - exists (replicate 56 0). split; [apply length_replicate|reflexivity].
Qed.

Lemma last_thread f s bs sb :
  last (thread f s bs) = Some sb -> last bs = Some sb.2.
Proof.
  intros H. rewrite <- (thread_blocks f s bs) at 1.
  rewrite fmap_last, H. reflexivity.
Qed.

(** C2: the padding step makes one call of the compression function
    when the tail [len mod 64] is at most 55 bytes and two calls when it
    is 56 bytes or more, so a whole run makes [len / 64] calls plus one
    or two.  The test the code makes after writing the 0x80 byte,
    [BLOCK_SIZE - rem < LENGTH_SIZE], holds exactly when the buffer
    position [rem] (the tail length plus one) is above 56. *)
Theorem C2_padding_calls :
  forall f message len hash0,
    0 <= len < 2 ^ 64 -> len <= Z.of_nat (length message) ->
    let q := Z.to_nat (len / 64) in
    let r := len mod 64 in
    let n_pad := if r <=? 55 then 1%nat else 2%nat in
    (forall m0, exists m1 extra,
        hash_tail f message len (64 * Z.of_nat q) m0 = Ok (tt, m1)
        /\ calls m1 = calls m0 ++ extra /\ length extra = n_pad)
    /\ (exists m, sha1_hash f message len (start hash0) = Ok (tt, m)
                  /\ length (calls m) = (q + n_pad)%nat)
    /\ (let rem := size_t (size_t (len - 64 * Z.of_nat q) + 1) in
        rem = r + 1
        /\ (size_t (BLOCK_SIZE - rem) <? LENGTH_SIZE) = (56 <? rem)
        /\ (56 <? rem) = negb (r <=? 55)).
Proof.
  intros f message len hash0 Hlen Hmsg q r n_pad.
  pose proof (Z.div_mod len 64 ltac:(lia)) as Hdm.
  pose proof (Z.mod_pos_bound len 64 ltac:(lia)) as Hmod.
  assert (Hq : Z.of_nat q = len / 64).
  { unfold q. rewrite Z2Nat.id; [reflexivity|]. apply Z.div_pos; lia. }
  set (tail := take (Z.to_nat (len mod 64)) (drop (64 * q) message)).
  assert (Htl : length tail = Z.to_nat r) by (apply tail_length; lia).
  assert (Hn : length (pad_blocks tail len) = n_pad).
  { rewrite pad_blocks_length, Htl. unfold n_pad.
    destruct (Nat.leb_spec (Z.to_nat r) 55), (Z.leb_spec r 55); auto; lia. }
  split.
  { intros m0.
    rewrite (hash_tail_ok f message len _ m0 (Z.to_nat r) Hlen Hmsg) by (fold r; lia).
    replace (Z.to_nat (64 * Z.of_nat q)) with (64 * q)%nat by lia.
    fold tail. eexists _, _. split; [reflexivity|]. cbn [calls].
    split; [reflexivity|]. rewrite thread_length. exact Hn. }
  split.
  { rewrite (sha1_hash_ok f message len hash0 Hlen Hmsg).
    eexists. split; [reflexivity|]. cbn [calls].
    rewrite thread_length, length_app, chunks_length.
    change (Z.to_nat (len / 64)) with q. fold tail. rewrite Hn.
    reflexivity. }
  cbv zeta.
  rewrite (size_t_small (len - 64 * Z.of_nat q)) by lia.
  rewrite (size_t_small (len - 64 * Z.of_nat q + 1)) by lia.
  unfold BLOCK_SIZE, LENGTH_SIZE.
  rewrite (size_t_small (64 - _)) by lia.
  split; [unfold r; lia|]. split.
  - destruct (Z.ltb_spec (64 - (len - 64 * Z.of_nat q + 1)) 8),
             (Z.ltb_spec 56 (len - 64 * Z.of_nat q + 1)); auto; lia.
  - fold r. destruct (Z.ltb_spec 56 (len - 64 * Z.of_nat q + 1)),
             (Z.leb_spec r 55); auto; unfold r in *; lia.
Qed.

(** C2 at a 56-byte message: the tail is 56 bytes, two padding calls. *)
Lemma C2_padding_calls_witness :
  0 <= 56 < 2 ^ 64 /\
  56 <= Z.of_nat (length (replicate 56 0x61)) /\
  exists m, sha1_hash compress (replicate 56 0x61) 56 (start IV) = Ok (tt, m)
            /\ length (calls m) = 2%nat.
Proof.
  assert (H1 : 0 <= 56 < 2 ^ 64) by lia.
  assert (H2 : 56 <= Z.of_nat (length (replicate 56 0x61))) by (vm_compute; discriminate).
  split; [exact H1|]. split; [exact H2|].
  destruct (C2_padding_calls compress (replicate 56 0x61) 56 IV H1 H2) as (_ & B & _).
  exact B.
Defined.

(** C3: the length-encoding statements store to bytes 63 down to 56 of
    a 64-byte buffer and to nothing else, so they change only its last
    eight bytes, and leave there the value
    [len * 8 mod 2^64] most significant byte first; the last block a run
    of [sha1_hash] compresses ends in these eight bytes.  Below 2^61 the
    reduction modulo 2^64 changes nothing. *)
Theorem C3_length_field :
  forall f message len hash0,
    0 <= len < 2 ^ 64 -> len <= Z.of_nat (length message) ->
    (forall block m, length block = 64%nat ->
       exists blk,
         encode_length block len m =
           Ok (blk, Machine (hash m) (calls m)
                      (trace m ++ (WriteBlock <$> [63; 62; 61; 60; 59; 58; 57; 56])))
         /\ length blk = 64%nat
         /\ (forall j : nat, (j < 56)%nat -> blk !! j = block !! j)
         /\ (forall k, 0 <= k < 8 ->
               blk !! Z.to_nat (63 - k) =
                 Some ((len * 8) mod 2 ^ 64 / 2 ^ (8 * k) mod 256)))
    /\ (exists m s blk,
          sha1_hash f message len (start hash0) = Ok (tt, m)
          /\ last (calls m) = Some (s, blk)
          /\ length blk = 64%nat
          /\ (forall k, 0 <= k < 8 ->
                blk !! Z.to_nat (63 - k) =
                  Some ((len * 8) mod 2 ^ 64 / 2 ^ (8 * k) mod 256)))
    /\ (len < 2 ^ 61 -> (len * 8) mod 2 ^ 64 = len * 8).
Proof.
  intros f message len hash0 Hlen Hmsg.
  assert (Hfield : forall pre : list Z, length pre = 56%nat ->
            forall k, 0 <= k < 8 ->
              (pre ++ be64 (size_t (len * 8))) !! Z.to_nat (63 - k) =
                Some ((len * 8) mod 2 ^ 64 / 2 ^ (8 * k) mod 256)).
  { intros pre Hpre k Hk.
    replace (Z.to_nat (63 - k)) with (length pre + Z.to_nat (7 - k))%nat by lia.
    rewrite lookup_app_r by lia.
    replace (length pre + Z.to_nat (7 - k) - length pre)%nat with (Z.to_nat (7 - k)) by lia.
    apply be64_lookup. exact Hk. }
  split.
  { intros block m Hb. exists (take 56 block ++ be64 (size_t (len * 8))).
    assert (Hpre : length (take 56 block) = 56%nat) by (rewrite length_take; lia).
    split; [apply encode_length_ok; exact Hb|].
    split; [rewrite length_app, Hpre; reflexivity|].
    split.
    - intros j Hj. rewrite lookup_app_l by lia. apply lookup_take_lt. exact Hj.
    - apply Hfield. exact Hpre. }
  split.
  { rewrite (sha1_hash_ok f message len hash0 Hlen Hmsg).
    set (tail := take (Z.to_nat (len mod 64)) (drop (64 * Z.to_nat (len / 64)) message)).
    assert (Htl : length tail = Z.to_nat (len mod 64)) by (apply tail_length; lia).
    pose proof (Z.mod_pos_bound len 64 ltac:(lia)) as Hmod.
    destruct (pad_blocks_last tail len ltac:(lia)) as (pre & Hpre & Hlast).
    set (bs := chunks message 0 (Z.to_nat (len / 64)) ++ pad_blocks tail len).
    assert (Hbs : last bs = Some (pre ++ be64 (size_t (len * 8)))).
    { unfold bs. destruct (pad_blocks tail len) as [|p ps] eqn:E; [discriminate|].
      rewrite last_app. rewrite Hlast. reflexivity. }
    destruct (thread_last f IV bs) as (s & b & Hl & _).
    { intros E. rewrite E in Hbs. discriminate. }
    pose proof (last_thread _ _ _ _ Hl) as Hb. rewrite Hbs in Hb.
    cbn in Hb. inversion Hb; subst b.
    eexists _, s, _. split; [reflexivity|]. cbn [calls].
    split; [exact Hl|].
    split; [rewrite length_app, Hpre; reflexivity|].
    apply Hfield. exact Hpre. }
  intros Hsmall. apply Z.mod_small. lia.
Qed.

(** C3 at the message "abc": 24 bits, the last byte of the block is 24. *)
Lemma C3_length_field_witness :
  0 <= 3 < 2 ^ 64 /\ 3 <= Z.of_nat (length (cstring "abc")) /\
  exists m s blk,
    sha1_hash compress (cstring "abc") 3 (start IV) = Ok (tt, m)
    /\ last (calls m) = Some (s, blk)
    /\ blk !! Z.to_nat (63 - 0) = Some ((3 * 8) mod 2 ^ 64 / 2 ^ (8 * 0) mod 256).
Proof.
  assert (H1 : 0 <= 3 < 2 ^ 64) by lia.
  assert (H2 : 3 <= Z.of_nat (length (cstring "abc"))) by (vm_compute; discriminate).
  split; [exact H1|]. split; [exact H2|].
  destruct (C3_length_field compress (cstring "abc") 3 IV H1 H2)
    as (_ & (m & s & blk & A & B & _ & C) & _).
  exists m, s, blk. split; [exact A|]. split; [exact B|]. apply C. lia.
Defined.

(** C5: after the [len / 64] full blocks, the blocks compressed are
    either one block holding the tail bytes, then 0x80, then zeros up
    to the eight-byte length field, or (tail of 56 bytes or more) a
    block holding the tail bytes, then 0x80, then zeros to its end,
    followed by a block of 56 zeros and the length field.  The tail
    bytes are the message bytes from [64 * (len / 64)] on. *)
Theorem C5_padding_layout :
  forall f message len hash0,
    0 <= len < 2 ^ 64 -> len <= Z.of_nat (length message) ->
    let q := Z.to_nat (len / 64) in
    let r := Z.to_nat (len mod 64) in
    exists m tail L,
      sha1_hash f message len (start hash0) = Ok (tt, m)
      /\ length tail = r /\ length L = 8%nat
      /\ (forall j : nat, (j < r)%nat -> tail !! j = message !! (64 * q + j)%nat)
      /\ ((r <= 55)%nat /\
            drop q (calls m).*2 = [tail ++ 0x80 :: replicate (55 - r) 0 ++ L]
          \/ (56 <= r)%nat /\
            drop q (calls m).*2 = [tail ++ 0x80 :: replicate (63 - r) 0;
                                   replicate 56 0 ++ L]).
Proof.
  intros f message len hash0 Hlen Hmsg q r.
  pose proof (Z.mod_pos_bound len 64 ltac:(lia)) as Hmod.
  set (tail := take r (drop (64 * q) message)).
  assert (Htl : length tail = r) by (apply tail_length; lia).
  destruct (pad_blocks_cases tail len ltac:(lia)) as (L & _ & HL & Hcases).
  exists (Machine (fold_left f (chunks message 0 q ++ pad_blocks tail len) IV)
                  (thread f IV (chunks message 0 q ++ pad_blocks tail len))
                  (run_trace len)), tail, L.
  split; [apply (sha1_hash_ok f message len hash0 Hlen Hmsg)|].
  split; [exact Htl|]. split; [exact HL|].
  split.
  { intros j Hj. unfold tail. rewrite lookup_take_lt by exact Hj.
    apply lookup_drop. }
  cbn [calls]. rewrite thread_blocks.
  rewrite drop_app_length' by (symmetry; apply chunks_length).
  rewrite Htl in Hcases. exact Hcases.
Qed.

(** C5 at the message "abc": one block, tail, 0x80, 52 zeros, length. *)
Lemma C5_padding_layout_witness :
  0 <= 3 < 2 ^ 64 /\ 3 <= Z.of_nat (length (cstring "abc")) /\
  exists m (tail L : list Z),
    sha1_hash compress (cstring "abc") 3 (start IV) = Ok (tt, m)
    /\ length tail = Z.to_nat (3 mod 64) /\ length L = 8%nat.
Proof.
  assert (H1 : 0 <= 3 < 2 ^ 64) by lia.
  assert (H2 : 3 <= Z.of_nat (length (cstring "abc"))) by (vm_compute; discriminate).
  split; [exact H1|]. split; [exact H2|].
  destruct (C5_padding_layout compress (cstring "abc") 3 IV H1 H2)
    as (m & tail & L & A & B & C & _).
  exists m, tail, L. auto.
Defined.

Lemma fold_left_ext (f g : state5 -> list Z -> state5) bs s :
  (forall s b, f s b = g s b) -> fold_left f bs s = fold_left g bs s.
Proof.
  intros E. revert s. induction bs as [|b bs IH]; intros s; simpl; [reflexivity|].
  rewrite E. apply IH.
Qed.

Lemma take_drop_prefix (l : list Z) (n off k : nat) :
  (off + k <= n)%nat -> take k (drop off (take n l)) = take k (drop off l).
Proof.
  intros H. replace n with (off + (n - off))%nat by lia.
  rewrite <- take_drop_commute, take_take.
  f_equal. lia.
Qed.

Lemma chunks_prefix (message : list Z) (n : nat) : forall q off,
  0 <= off -> (Z.to_nat off + 64 * q <= n)%nat ->
  chunks (take n message) off q = chunks message off q.
Proof.
  induction q as [|q IH]; intros off Hoff Hle; [reflexivity|].
  cbn [chunks]. rewrite IH by lia. f_equal.
  apply take_drop_prefix. lia.
Qed.

Lemma blocks_prefix (message : list Z) len :
  0 <= len ->
  let q := Z.to_nat (len / 64) in
  let bl msg := chunks msg 0 q ++
                pad_blocks (take (Z.to_nat (len mod 64)) (drop (64 * q) msg)) len in
  bl (take (Z.to_nat len) message) = bl message.
Proof.
  intros Hlen q bl. unfold bl.
  pose proof (Z.div_mod len 64 ltac:(lia)) as Hdm.
  pose proof (Z.mod_pos_bound len 64 ltac:(lia)) as Hmod.
  assert (Hq : Z.of_nat q = len / 64).
  { unfold q. rewrite Z2Nat.id; [reflexivity|]. apply Z.div_pos; lia. }
  rewrite chunks_prefix by lia.
  rewrite take_drop_prefix by lia. reflexivity.
Qed.

(** C8: the outcome of [sha1_hash] is a function of the first [len]
    message bytes and of [len] alone: two runs whose messages agree on
    these bytes give the same digest, whatever lies beyond them,
    whatever the output array held, and for any two compression
    functions that agree on every state and block. *)
Theorem C8_deterministic :
  forall f g message message' len hash0 hash0',
    (forall s b, f s b = g s b) ->
    0 <= len < 2 ^ 64 ->
    len <= Z.of_nat (length message) -> len <= Z.of_nat (length message') ->
    take (Z.to_nat len) message = take (Z.to_nat len) message' ->
    exists d, digest f message len hash0 = Ok d
              /\ digest g message' len hash0' = Ok d.
Proof.
  intros f g message message' len hash0 hash0' Hfg Hlen Hm Hm' Hpre.
  rewrite (digest_ok f message len hash0 Hlen Hm).
  rewrite (digest_ok g message' len hash0' Hlen Hm').
  eexists. split; [reflexivity|]. f_equal.
  pose proof (blocks_prefix message len ltac:(lia)) as B.
  pose proof (blocks_prefix message' len ltac:(lia)) as B'.
  cbv zeta in B, B'. rewrite <- B, <- B', Hpre.
  symmetry. apply fold_left_ext. exact Hfg.
Qed.

(** C8 at "abc" read from two buffers that differ after the third byte. *)
Lemma C8_deterministic_witness :
  (forall s b, compress s b = compress s b) /\
  0 <= 3 < 2 ^ 64 /\
  3 <= Z.of_nat (length (cstring "abc")) /\
  3 <= Z.of_nat (length [0x61; 0x62; 0x63; 0x64; 0x65]) /\
  take (Z.to_nat 3) (cstring "abc") = take (Z.to_nat 3) [0x61; 0x62; 0x63; 0x64; 0x65] /\
  exists d, digest compress (cstring "abc") 3 IV = Ok d
            /\ digest compress [0x61; 0x62; 0x63; 0x64; 0x65] 3 (State5 1 2 3 4 5) = Ok d.
Proof.
  assert (H0 : forall s b, compress s b = compress s b) by reflexivity.
  assert (H1 : 0 <= 3 < 2 ^ 64) by lia.
  assert (H2 : 3 <= Z.of_nat (length (cstring "abc"))) by (vm_compute; discriminate).
  assert (H3 : 3 <= Z.of_nat (length [0x61; 0x62; 0x63; 0x64; 0x65]))
    by (vm_compute; discriminate).
  assert (H4 : take (Z.to_nat 3) (cstring "abc") =
               take (Z.to_nat 3) [0x61; 0x62; 0x63; 0x64; 0x65]) by reflexivity.
  repeat (split; [assumption|]).
  exact (C8_deterministic compress compress (cstring "abc") [0x61; 0x62; 0x63; 0x64; 0x65]
           3 IV (State5 1 2 3 4 5) H0 H1 H2 H3 H4).
Defined.

(** C10: on a buffer of which exactly the bytes [0 .. len-1] are
    accessible, [sha1_hash] runs to completion, and a longer buffer
    gives the same final machine.  The memory events of the run are,
    in order: the five stores to [hash[0..4]]; for each full block the
    pointer [&message[64k]] handed to the compression function; the
    64 stores of the initialiser of the local [block]; the loads of
    [message[64q .. len-1]] and the stores to [block[0 .. r-1]] of the
    copy of the tail; the store of 0x80 to [block[r]]; for a tail of 56
    bytes or more, [block] handed to the compression function and the
    64 stores that clear it; the eight stores to [block[63 .. 56]];
    [block] handed to the compression function.  Nothing else is loaded
    or stored.  So every store is to one of the five words of [hash] or
    one of the 64 bytes of the local [block]; every load of a message
    byte is at an index below [len]; every pointer into the message
    that the compression function receives has its 64 bytes below
    [len]; and when [len] is 0 no message byte is loaded and no pointer
    into the message is handed out. *)
Theorem C10_frame :
  forall f message len hash0,
    0 <= len < 2 ^ 64 -> len <= Z.of_nat (length message) ->
    exists m,
      sha1_hash f message len (start hash0) = Ok (tt, m)
      /\ sha1_hash f (take (Z.to_nat len) message) len (start hash0) = Ok (tt, m)
      /\ trace m =
           (WriteHash <$> seqZ 0 5) ++
           ((fun k => Pass (MessagePtr (64 * k))) <$> seqZ 0 (len / 64)) ++
           (WriteBlock <$> seqZ 0 64) ++
           (ReadMessage <$> seqZ (64 * (len / 64)) (len mod 64)) ++
           (WriteBlock <$> seqZ 0 (len mod 64)) ++
           [WriteBlock (len mod 64)] ++
           (if len mod 64 <=? 55 then []
            else Pass BlockPtr :: (WriteBlock <$> seqZ 0 64)) ++
           (WriteBlock <$> [63; 62; 61; 60; 59; 58; 57; 56]) ++
           [Pass BlockPtr]
      /\ Forall (fun e => match e with
                          | WriteHash i => 0 <= i < 5
                          | WriteBlock i => 0 <= i < 64
                          | ReadMessage i => 0 <= i < len
                          | Pass (MessagePtr off) => 0 <= off /\ off + 64 <= len
                          | Pass BlockPtr => True
                          end) (trace m)
      /\ (len = 0 ->
            trace m =
              (WriteHash <$> seqZ 0 5) ++ (WriteBlock <$> seqZ 0 64) ++
              [WriteBlock 0] ++ (WriteBlock <$> [63; 62; 61; 60; 59; 58; 57; 56]) ++
              [Pass BlockPtr]).
Proof.
  intros f message len hash0 Hlen Hmsg.
  pose proof (Z.div_mod len 64 ltac:(lia)) as Hdm.
  pose proof (Z.mod_pos_bound len 64 ltac:(lia)) as Hmod.
  assert (Hq0 : 0 <= len / 64) by (apply Z.div_pos; lia).
  eexists. split; [apply (sha1_hash_ok f message len hash0 Hlen Hmsg)|].
  split.
  { rewrite (sha1_hash_ok f (take (Z.to_nat len) message) len hash0 Hlen)
      by (rewrite length_take; lia).
    pose proof (blocks_prefix message len ltac:(lia)) as B. cbv zeta in B.
    rewrite B. reflexivity. }
  cbn [trace]. split; [reflexivity|]. split.
  - unfold run_trace, tail_trace.
    repeat (apply Forall_app; split).
    + apply Forall_fmap, Forall_seqZ. intros i Hi. cbn. lia.
    + apply Forall_fmap, Forall_seqZ. intros k Hk. cbn. lia.
    + apply Forall_fmap, Forall_seqZ. intros i Hi. cbn. lia.
    + apply Forall_fmap, Forall_seqZ. intros i Hi. cbn. lia.
    + apply Forall_fmap, Forall_seqZ. intros i Hi. cbn. lia.
    + repeat constructor; lia.
    + destruct (len mod 64 <=? 55); [constructor|].
      constructor; [exact I|].
      apply Forall_fmap, Forall_seqZ. intros i Hi. cbn. lia.
    + repeat constructor; lia.
    + repeat constructor.
  - intros ->. reflexivity.
Qed.

(** C10 at a message of 70 bytes in a buffer of 75: one full block is
    handed to the compression function in place, six bytes are copied. *)
Lemma C10_frame_witness :
  0 <= 70 < 2 ^ 64 /\ 70 <= Z.of_nat (length (replicate 64 0x61 ++ replicate 11 0x62)) /\
  exists m,
    sha1_hash compress (replicate 64 0x61 ++ replicate 11 0x62) 70 (start IV) = Ok (tt, m)
    /\ sha1_hash compress (take (Z.to_nat 70) (replicate 64 0x61 ++ replicate 11 0x62)) 70
         (start IV) = Ok (tt, m)
    /\ trace m =
         (WriteHash <$> seqZ 0 5) ++
         ((fun k => Pass (MessagePtr (64 * k))) <$> seqZ 0 (70 / 64)) ++
         (WriteBlock <$> seqZ 0 64) ++
         (ReadMessage <$> seqZ (64 * (70 / 64)) (70 mod 64)) ++
         (WriteBlock <$> seqZ 0 (70 mod 64)) ++
         [WriteBlock (70 mod 64)] ++
         (if 70 mod 64 <=? 55 then []
          else Pass BlockPtr :: (WriteBlock <$> seqZ 0 64)) ++
         (WriteBlock <$> [63; 62; 61; 60; 59; 58; 57; 56]) ++
         [Pass BlockPtr]
    /\ Forall (fun e => match e with
                        | WriteHash i => 0 <= i < 5
                        | WriteBlock i => 0 <= i < 64
                        | ReadMessage i => 0 <= i < 70
                        | Pass (MessagePtr off) => 0 <= off /\ off + 64 <= 70
                        | Pass BlockPtr => True
                        end) (trace m)
    /\ (70 = 0 ->
          trace m =
            (WriteHash <$> seqZ 0 5) ++ (WriteBlock <$> seqZ 0 64) ++
            [WriteBlock 0] ++ (WriteBlock <$> [63; 62; 61; 60; 59; 58; 57; 56]) ++
            [Pass BlockPtr]).
Proof.
  assert (H1 : 0 <= 70 < 2 ^ 64) by lia.
  assert (H2 : 70 <= Z.of_nat (length (replicate 64 0x61 ++ replicate 11 0x62)))
    by (vm_compute; discriminate).
  split; [exact H1|]. split; [exact H2|].
  exact (C10_frame compress (replicate 64 0x61 ++ replicate 11 0x62) 70 IV H1 H2).
Defined.

(** ** The self-check and the main program *)

Lemma strlen_bound s n : strlen s = Ok n -> 0 <= n < Z.of_nat (length s).
Proof.
  revert n. induction s as [|c s IH]; intros n H; [discriminate|].
  cbn [strlen] in H. destruct (c =? 0).
  - inversion H. cbn [length]. lia.
  - destruct (strlen s) as [k| |]; try discriminate.
    inversion H. specialize (IH k eq_refl). cbn [length]. lia.
Qed.

Lemma self_check_from_true f junk tcs :
  self_check_from f junk tcs = Ok true <->
  Forall (fun tc => exists n, strlen (message tc) = Ok n /\
                    digest f (message tc) n junk = Ok (answer tc)) tcs.
Proof.
  induction tcs as [|tc tcs IH]; cbn [self_check_from].
  - split; [constructor|reflexivity].
  - split.
    + intros H.
      destruct (strlen (message tc)) as [n| |] eqn:En; try discriminate.
      destruct (digest f (message tc) n junk) as [h| |] eqn:Ed; try discriminate.
      destruct (state5_eqb h (answer tc)) eqn:Eq; cbn [negb] in H; [|discriminate].
      apply state5_eqb_eq in Eq. subst h.
      constructor; [eauto|]. apply IH. exact H.
    + intros H. inversion H as [|? ? (n & En & Ed) Hrest]; subst.
      rewrite En, Ed.
      destruct (state5_eqb (answer tc) (answer tc)) eqn:Eq.
      * cbn [negb]. apply IH. exact Hrest.
      * assert (state5_eqb (answer tc) (answer tc) = true) by (apply state5_eqb_eq; reflexivity).
        congruence.
Qed.

Lemma self_check_from_total f junk tcs :
  Forall (fun tc => exists n, strlen (message tc) = Ok n /\ n < 2 ^ 64) tcs ->
  exists b, self_check_from f junk tcs = Ok b.
Proof.
  induction 1 as [|tc tcs (n & En & Hn) _ IH]; cbn [self_check_from].
  - eauto.
  - rewrite En. pose proof (strlen_bound _ _ En) as Hb.
    rewrite digest_ok by lia.
    destruct (negb _); [eauto|exact IH].
Qed.

Lemma testCases_strings :
  Forall (fun tc => exists n, strlen (message tc) = Ok n /\ n < 2 ^ 64) testCases.
Proof.
  unfold testCases.
  repeat (constructor; [eexists; split; [vm_compute; reflexivity|reflexivity]|]).
  constructor.
Qed.

Lemma self_check_total f junk : exists b, self_check f junk = Ok b.
Proof. unfold self_check. apply self_check_from_total. exact testCases_strings. Qed.

Lemma bench_loop_ok f block : forall (fuel : nat) i n m,
  0 <= i <= n -> n - i <= Z.of_nat fuel ->
  exists m', bench_loop f fuel i n block m = Ok (tt, m')
             /\ length (calls m') = (length (calls m) + Z.to_nat (n - i))%nat.
Proof.
  induction fuel as [|fuel IH]; intros i n m Hi Hf.
  - assert (i = n) by lia. subst i. exists m. cbn [bench_loop].
    rewrite Z.ltb_irrefl. split; [reflexivity|lia].
  - cbn [bench_loop]. destruct (Z.ltb_spec i n).
    + erewrite bind_ok by apply call_compress_ok.
      destruct (IH (i + 1) n (Machine (f (hash m) block)
                                (calls m ++ [(hash m, block)])
                                (trace m ++ [Pass BlockPtr]))
                  ltac:(lia) ltac:(lia)) as (m' & Hrun & Hlen).
      exists m'. split; [exact Hrun|].
      rewrite Hlen. cbn [calls]. rewrite length_app. cbn [length]. lia.
    + exists m. split; [reflexivity|lia].
Qed.

Lemma benchmark_ok f m :
  exists m', benchmark f m = Ok (tt, m')
             /\ length (calls m') = (length (calls m) + Z.to_nat N_BENCH)%nat.
Proof.
  unfold benchmark.
  assert (H0 : 0 <= N_BENCH) by (unfold N_BENCH; lia).
  generalize dependent N_BENCH. intros n Hn.
  destruct (bench_loop_ok f (replicate 64 0) (Z.to_nat n) 0 n m ltac:(lia) ltac:(lia))
    as (m' & Hrun & Hlen).
  exists m'. split; [exact Hrun|]. rewrite Hlen. f_equal. f_equal. lia.
Qed.

(** C1: with the compression function of the design document,
    [sha1_hash] gives the listed digest on each of the six known-answer
    messages and their byte lengths (0, 1, 3, 14, 26 and 56, which is
    what [strlen] returns on them); the table [testCases] holds exactly
    these digests and messages; [self_check] always returns, and returns
    true exactly when every computed digest equals the table entry,
    which it does. *)
Theorem C1_known_answers :
  (forall junk, digest compress (cstring "") 0 junk =
     Ok (State5 0xDA39A3EE 0x5E6B4B0D 0x3255BFEF 0x95601890 0xAFD80709))
  /\ (forall junk, digest compress (cstring "a") 1 junk =
     Ok (State5 0x86F7E437 0xFAA5A7FC 0xE15D1DDC 0xB9EAEAEA 0x377667B8))
  /\ (forall junk, digest compress (cstring "abc") 3 junk =
     Ok (State5 0xA9993E36 0x4706816A 0xBA3E2571 0x7850C26C 0x9CD0D89D))
  /\ (forall junk, digest compress (cstring "message digest") 14 junk =
     Ok (State5 0xC12252CE 0xDA8BE899 0x4D5FA029 0x0A47231C 0x1D16AAE3))
  /\ (forall junk, digest compress (cstring "abcdefghijklmnopqrstuvwxyz") 26 junk =
     Ok (State5 0x32D10C7B 0x8CF96570 0xCA04CE37 0xF2A19D84 0x240D3A89))
  /\ (forall junk,
        digest compress
          (cstring "abcdbcdecdefdefgefghfghighijhijkijkljklmklmnlmnomnopnopq") 56 junk =
     Ok (State5 0x84983E44 0x1C3BD26E 0xBAAE4AA1 0xF95129E5 0xE54670F1))
  /\ map (fun tc => (message tc, strlen (message tc), answer tc)) testCases =
     [ (cstring "", Ok 0,
        State5 0xDA39A3EE 0x5E6B4B0D 0x3255BFEF 0x95601890 0xAFD80709);
       (cstring "a", Ok 1,
        State5 0x86F7E437 0xFAA5A7FC 0xE15D1DDC 0xB9EAEAEA 0x377667B8);
       (cstring "abc", Ok 3,
        State5 0xA9993E36 0x4706816A 0xBA3E2571 0x7850C26C 0x9CD0D89D);
       (cstring "message digest", Ok 14,
        State5 0xC12252CE 0xDA8BE899 0x4D5FA029 0x0A47231C 0x1D16AAE3);
       (cstring "abcdefghijklmnopqrstuvwxyz", Ok 26,
        State5 0x32D10C7B 0x8CF96570 0xCA04CE37 0xF2A19D84 0x240D3A89);
       (cstring "abcdbcdecdefdefgefghfghighijhijkijkljklmklmnlmnomnopnopq", Ok 56,
        State5 0x84983E44 0x1C3BD26E 0xBAAE4AA1 0xF95129E5 0xE54670F1) ]
  /\ (forall f junk, exists b, self_check f junk = Ok b)
  /\ (forall f junk,
        self_check f junk = Ok true <->
        Forall (fun tc => exists n, strlen (message tc) = Ok n /\
                          digest f (message tc) n junk = Ok (answer tc)) testCases)
  /\ (forall junk, self_check compress junk = Ok true).
Proof.
  assert (D : forall msg len d,
            0 <= len < 2 ^ 64 -> len <= Z.of_nat (length msg) ->
            digest compress msg len IV = Ok d ->
            forall junk, digest compress msg len junk = Ok d).
  { intros msg len d H1 H2 H junk.
    rewrite digest_ok in * by assumption. exact H. }
  do 6 (split; [apply D; [lia|vm_compute; discriminate|vm_compute; reflexivity]|]).
  split; [reflexivity|].
  split; [apply self_check_total|].
  split; [intros f junk; unfold self_check; apply self_check_from_true|].
  intros junk. unfold self_check. apply self_check_from_true.
  unfold testCases.
  repeat (constructor;
          [eexists; split; [vm_compute; reflexivity|];
           apply D; [lia|vm_compute; discriminate|vm_compute; reflexivity]|]).
  constructor.
Qed.

(** C9: [main] always returns.  Its exit status is [EXIT_SUCCESS], that
    is 0, exactly when [self_check] returns true; when [self_check]
    returns false the status is [EXIT_FAILURE], which is not 0, the only
    output is the failure line and the benchmark makes no call of the
    compression function; on success the benchmark makes its ten million
    calls. *)
Theorem C9_exit_status :
  forall f junk start_time end_time,
    exists passed o,
      self_check f junk = Ok passed
      /\ main f junk start_time end_time = Ok o
      /\ (status o = 0 <-> passed = true)
      /\ (passed = false ->
            status o = EXIT_FAILURE /\ status o <> 0
            /\ stdout o = [Printf ("Self-check failed" ++ newline)]
            /\ bench_calls o = [])
      /\ (passed = true ->
            status o = EXIT_SUCCESS
            /\ length (bench_calls o) = Z.to_nat 10000000).
Proof.
  intros f junk t0 t1.
  destruct (self_check_total f junk) as (passed & Hsc).
  exists passed. unfold main. rewrite Hsc.
  destruct passed; cbn [negb].
  - destruct (benchmark_ok f (start (State5 0 0 0 0 0))) as (m' & Hrun & Hlen).
    rewrite Hrun. cbn [report].
    eexists. split; [reflexivity|]. split; [reflexivity|].
    cbn [status bench_calls stdout].
    split; [split; reflexivity|].
    split; [discriminate|].
    intros _. split; [reflexivity|]. rewrite Hlen. reflexivity.
  - eexists. split; [reflexivity|]. split; [reflexivity|].
    cbn [status bench_calls stdout].
    split; [split; discriminate|].
    split; [|discriminate].
    intros _. repeat split. discriminate.
Qed.

(** ** The compression function of the design document *)

Lemma lor_disjoint_add a b n :
  0 <= n -> 0 <= b < 2 ^ n -> a mod 2 ^ n = 0 -> Z.lor a b = a + b.
Proof.
  intros Hn Hb Ha.
  assert (Hland : Z.land a b = 0).
  { apply Z.bits_inj'. intros i Hi. rewrite Z.land_spec, Z.bits_0.
    destruct (Z.ltb_spec i n).
    - rewrite <- (Z.mod_pow2_bits_low a n i) by lia. rewrite Ha, Z.bits_0. reflexivity.
    - rewrite <- (Z.mod_small b (2 ^ n)) by lia.
      rewrite Z.mod_pow2_bits_high by lia. apply andb_false_r. }
  rewrite <- Z.lxor_lor by exact Hland.
  symmetry. apply Z.add_nocarry_lxor. exact Hland.
Qed.

Lemma be32_value b0 b1 b2 b3 :
  0 <= b0 < 256 -> 0 <= b1 < 256 -> 0 <= b2 < 256 -> 0 <= b3 < 256 ->
  be32 b0 b1 b2 b3 = b0 * 2 ^ 24 + b1 * 2 ^ 16 + b2 * 2 ^ 8 + b3.
Proof.
  intros H0 H1 H2 H3. unfold be32.
  rewrite !Z.shiftl_mul_pow2 by lia.
  change (2 ^ 24) with 16777216. change (2 ^ 16) with 65536. change (2 ^ 8) with 256.
  rewrite (lor_disjoint_add (b0 * 16777216) (b1 * 65536) 24)
    by (change (2 ^ 24) with 16777216; first [lia | Z.div_mod_to_equations; lia]).
  rewrite (lor_disjoint_add (b0 * 16777216 + b1 * 65536) (b2 * 256) 16)
    by (change (2 ^ 16) with 65536; first [lia | Z.div_mod_to_equations; lia]).
  rewrite (lor_disjoint_add (b0 * 16777216 + b1 * 65536 + b2 * 256) b3 8)
    by (change (2 ^ 8) with 256; first [lia | Z.div_mod_to_equations; lia]).
  reflexivity.
Qed.

Lemma rotl32_bits x n i :
  0 <= x < 2 ^ 32 -> 0 < n < 32 -> 0 <= i < 32 ->
  Z.testbit (rotl32 x n) i = Z.testbit x ((i - n) mod 32).
Proof.
  intros Hx Hn Hi. unfold rotl32, u32.
  rewrite Z.lor_spec, Z.testbit_mod_pow2 by lia.
  destruct (Z.ltb_spec i 32); [|lia]. cbn [andb].
  rewrite Z.shiftl_spec, Z.shiftr_spec by lia.
  destruct (Z.ltb_spec i n).
  - rewrite (Z.testbit_neg_r x (i - n)) by lia. cbn [orb].
    f_equal. replace (i - n) with (i + (32 - n) + (-1) * 32) by lia.
    rewrite Z.mod_add by lia. rewrite Z.mod_small by lia. reflexivity.
  - rewrite (Z.mod_small (i - n)) by lia.
    rewrite <- (Z.mod_small x (2 ^ 32)) at 2 by lia.
    rewrite (Z.mod_pow2_bits_high x 32 (i + (32 - n))) by lia.
    apply orb_false_r.
Qed.

Lemma rotl32_range x n :
  0 <= x < 2 ^ 32 -> 0 < n < 32 -> 0 <= rotl32 x n < 2 ^ 32.
Proof.
  intros Hx Hn. unfold rotl32, u32.
  assert (H1 : 0 <= Z.shiftl x n mod 2 ^ 32 < 2 ^ 32) by (apply Z.mod_pos_bound; lia).
  assert (H2 : 0 <= Z.shiftr x (32 - n) < 2 ^ 32).
  { rewrite Z.shiftr_div_pow2 by lia. split.
    - apply Z.div_pos; lia.
    - apply Z.div_lt_upper_bound; [lia|].
      assert (1 <= 2 ^ (32 - n)) by (apply (Z.pow_le_mono_r 2 0); lia). nia. }
  split.
  - apply Z.lor_nonneg. lia.
  - destruct (Z.eq_dec (Z.lor (Z.shiftl x n mod 2 ^ 32) (Z.shiftr x (32 - n))) 0) as [E|E];
      [rewrite E; lia|].
    apply Z.log2_lt_pow2.
    + assert (0 <= Z.lor (Z.shiftl x n mod 2 ^ 32) (Z.shiftr x (32 - n)))
        by (apply Z.lor_nonneg; lia). lia.
    + rewrite Z.log2_lor by lia.
      apply Z.max_lub_lt.
      * destruct (Z.eq_dec (Z.shiftl x n mod 2 ^ 32) 0) as [E1|E1];
          [rewrite E1; cbn; lia|apply Z.log2_lt_pow2; lia].
      * destruct (Z.eq_dec (Z.shiftr x (32 - n)) 0) as [E2|E2];
          [rewrite E2; cbn; lia|apply Z.log2_lt_pow2; lia].
Qed.

Lemma expand_length n : forall w, length (expand n w) = (length w + n)%nat.
Proof.
  induction n as [|n IH]; intros w; cbn [expand]; [lia|].
  rewrite IH, length_app. cbn [length]. lia.
Qed.

Lemma expand_old n : forall (w : list Z) (i : nat),
  (i < length w)%nat -> expand n w !!! i = w !!! i.
Proof.
  induction n as [|n IH]; intros w i Hi; cbn [expand]; [reflexivity|].
  rewrite IH by (rewrite length_app; cbn [length]; lia).
  apply lookup_total_app_l. exact Hi.
Qed.

Lemma expand_new n : forall (w : list Z) (i : nat),
  (16 <= length w)%nat -> (length w <= i < length w + n)%nat ->
  expand n w !!! i =
    rotl32 (Z.lxor (Z.lxor (Z.lxor (expand n w !!! (i - 3)%nat)
                                   (expand n w !!! (i - 8)%nat))
                           (expand n w !!! (i - 14)%nat))
                   (expand n w !!! (i - 16)%nat)) 1.
Proof.
  induction n as [|n IH]; intros w i Hw Hi; [lia|].
  cbn [expand].
  destruct (decide (i = length w)) as [->|Hne].
  - rewrite !expand_old by (rewrite length_app; cbn [length]; lia).
    rewrite lookup_total_app_r by lia. rewrite Nat.sub_diag. cbn [lookup_total list_lookup_total].
    rewrite !lookup_total_app_l by lia. reflexivity.
  - apply IH; rewrite length_app; cbn [length]; lia.
Qed.

Lemma block_words_lookup (block : list Z) (i : nat) :
  (i < 16)%nat ->
  block_words block !!! i =
    be32 (block !!! (4 * i)%nat) (block !!! (4 * i + 1)%nat)
         (block !!! (4 * i + 2)%nat) (block !!! (4 * i + 3)%nat).
Proof.
  intros Hi. unfold block_words.
  apply list_lookup_total_correct.
  rewrite list_lookup_fmap, lookup_seq_lt by exact Hi. reflexivity.
Qed.

Lemma block_words_length block : length (block_words block) = 16%nat.
Proof. reflexivity. Qed.

(** C7: [compress] is the function of the design document.  There are
    schedule words [w 0 .. w 79] and working states [v 0 .. v 80] such
    that: [w i] for [i < 16] is the big-endian word made of the block
    bytes [4i .. 4i+3] (for bytes below 256, the value
    [b0 * 2^24 + b1 * 2^16 + b2 * 2^8 + b3]); [w i] for [16 <= i < 80]
    is the left rotation by one of [w (i-3) xor w (i-8) xor w (i-14) xor
    w (i-16)]; [v 0] is the incoming state; [v (i+1)] is obtained from
    [v i = (a, b, c, d, e)] as [(rotl a 5 + f + e + k + w i mod 2^32, a,
    rotl b 30, c, d)] with [f] and [k] selected by the range of [i]; and
    the result adds [v 80] to the incoming state word by word modulo
    2^32.  [rotl32] moves bit [i - n] of a 32-bit word to bit [i], the
    indices taken modulo 32. *)
Theorem C7_compress_algorithm :
  forall state block,
    exists (w : nat -> Z) (v : nat -> state5),
      (forall (i : nat) b0 b1 b2 b3, (i < 16)%nat ->
          block !! (4 * i)%nat = Some b0 -> block !! (4 * i + 1)%nat = Some b1 ->
          block !! (4 * i + 2)%nat = Some b2 -> block !! (4 * i + 3)%nat = Some b3 ->
          w i = Z.lor (Z.lor (Z.lor (Z.shiftl b0 24) (Z.shiftl b1 16)) (Z.shiftl b2 8)) b3
          /\ (0 <= b0 < 256 -> 0 <= b1 < 256 -> 0 <= b2 < 256 -> 0 <= b3 < 256 ->
              w i = b0 * 2 ^ 24 + b1 * 2 ^ 16 + b2 * 2 ^ 8 + b3))
      /\ (forall i : nat, (16 <= i < 80)%nat ->
            w i = rotl32 (Z.lxor (Z.lxor (Z.lxor (w (i - 3)%nat) (w (i - 8)%nat))
                                         (w (i - 14)%nat)) (w (i - 16)%nat)) 1)
      /\ v 0%nat = state
      /\ (forall i : nat, (i < 80)%nat ->
            let '(State5 a b c d e) := v i in
            let f :=
              if (i <? 20)%nat then Z.lor (Z.land b c) (Z.land (u32 (Z.lnot b)) d)
              else if (i <? 40)%nat then Z.lxor (Z.lxor b c) d
              else if (i <? 60)%nat
                   then Z.lor (Z.lor (Z.land b c) (Z.land b d)) (Z.land c d)
              else Z.lxor (Z.lxor b c) d in
            let k :=
              if (i <? 20)%nat then 0x5A827999
              else if (i <? 40)%nat then 0x6ED9EBA1
              else if (i <? 60)%nat then 0x8F1BBCDC
              else 0xCA62C1D6 in
            v (S i) = State5 ((rotl32 a 5 + f + e + k + w i) mod 2 ^ 32)
                             a (rotl32 b 30) c d)
      /\ compress state block =
           State5 ((h0 state + h0 (v 80%nat)) mod 2 ^ 32)
                  ((h1 state + h1 (v 80%nat)) mod 2 ^ 32)
                  ((h2 state + h2 (v 80%nat)) mod 2 ^ 32)
                  ((h3 state + h3 (v 80%nat)) mod 2 ^ 32)
                  ((h4 state + h4 (v 80%nat)) mod 2 ^ 32)
      /\ (forall x n i, 0 <= x < 2 ^ 32 -> 0 < n < 32 -> 0 <= i < 32 ->
            rotl32 x n = Z.lor (Z.shiftl x n mod 2 ^ 32) (Z.shiftr x (32 - n))
            /\ 0 <= rotl32 x n < 2 ^ 32
            /\ Z.testbit (rotl32 x n) i = Z.testbit x ((i - n) mod 32)).
Proof.
  intros state block.
  exists (fun i => schedule block !!! i).
  exists (fun i => fold_left (round (schedule block)) (seq 0 i) state).
  split.
  { intros i b0 b1 b2 b3 Hi E0 E1 E2 E3.
    assert (Hw : schedule block !!! i = be32 b0 b1 b2 b3).
    { unfold schedule. rewrite expand_old by (rewrite block_words_length; exact Hi).
      rewrite block_words_lookup by exact Hi.
      rewrite (list_lookup_total_correct _ _ _ E0), (list_lookup_total_correct _ _ _ E1),
              (list_lookup_total_correct _ _ _ E2), (list_lookup_total_correct _ _ _ E3).
      reflexivity. }
    split; [exact Hw|]. intros. rewrite Hw. apply be32_value; assumption. }
  split.
  { intros i Hi. unfold schedule. apply expand_new; rewrite block_words_length; lia. }
  split; [reflexivity|].
  split.
  { intros i Hi. rewrite seq_S, fold_left_app. cbn [fold_left Nat.add].
    destruct (fold_left (round (schedule block)) (seq 0 i) state) as [a b c d e].
    reflexivity. }
  split.
  { unfold compress.
    destruct (fold_left (round (schedule block)) (seq 0 80) state) as [a b c d e].
    reflexivity. }
  intros x n i Hx Hn Hi.
  split; [reflexivity|]. split; [apply rotl32_range; assumption|].
  apply rotl32_bits; assumption.
Qed.

(** ** The boundary between one and two padding blocks, run *)

Example tail_55_one_block :
  exists m, sha1_hash compress (replicate 55 0x61) 55 (start IV) = Ok (tt, m)
            /\ length (calls m) = 1%nat
            /\ hash m = State5 0xC1C8BBDC 0x22796E28 0xC0E15163 0xD20899B6 0x5621D65A.
Proof. eexists. split; [vm_compute; reflexivity|]. split; reflexivity. Qed.

Example tail_56_two_blocks :
  exists m, sha1_hash compress (replicate 56 0x61) 56 (start IV) = Ok (tt, m)
            /\ length (calls m) = 2%nat
            /\ hash m = State5 0xC2DB330F 0x6083854C 0x99D4B5BF 0xB6E8F29F 0x201BE699.
Proof. eexists. split; [vm_compute; reflexivity|]. split; reflexivity. Qed.

Example tail_119_two_calls :
  exists m, sha1_hash compress (replicate 119 0x61) 119 (start IV) = Ok (tt, m)
            /\ length (calls m) = 2%nat.
Proof. eexists. split; [vm_compute; reflexivity|]. reflexivity. Qed.

Example tail_120_three_calls :
  exists m, sha1_hash compress (replicate 120 0x61) 120 (start IV) = Ok (tt, m)
            /\ length (calls m) = 3%nat.
Proof. eexists. split; [vm_compute; reflexivity|]. reflexivity. Qed.

(** ** Further properties of the hasher *)

Lemma chunks_block_length (message : list Z) : forall q off,
  0 <= off -> off + 64 * Z.of_nat q <= Z.of_nat (length message) ->
  Forall (fun b : list Z => length b = 64%nat) (chunks message off q).
Proof.
  induction q as [|q IH]; intros off Hoff Hle; cbn [chunks]; constructor.
  - rewrite length_take, length_drop. lia.
  - apply IH; lia.
Qed.

Lemma pad_blocks_block_length (tail : list Z) len :
  (length tail < 64)%nat ->
  Forall (fun b : list Z => length b = 64%nat) (pad_blocks tail len).
Proof.
  intros Hlt. unfold pad_blocks.
  destruct (Nat.leb_spec (length tail) 55); repeat constructor;
    rewrite ?length_app; cbn [length]; rewrite ?length_app, ?length_replicate;
    cbn [length]; change (length (be64 (size_t (len * 8)))) with 8%nat; lia.
Qed.

Lemma be64_range n : Forall (fun b => 0 <= b < 256) (be64 n).
Proof.
  rewrite be64_bytes. change 0xFF with (Z.ones 8).
  rewrite !Z.land_ones by lia.
  repeat constructor; apply Z.mod_pos_bound; lia.
Qed.

Lemma run_blocks f message len hash0 :
  0 <= len < 2 ^ 64 -> len <= Z.of_nat (length message) ->
  exists m, sha1_hash f message len (start hash0) = Ok (tt, m)
    /\ (calls m).*2 =
       chunks message 0 (Z.to_nat (len / 64)) ++
       pad_blocks (take (Z.to_nat (len mod 64))
                        (drop (64 * Z.to_nat (len / 64)) message)) len.
Proof.
  intros H1 H2. eexists. split; [apply (sha1_hash_ok f message len hash0 H1 H2)|].
  cbn [calls]. apply thread_blocks.
Qed.

(** X1: every block handed to the compression function, whether a piece
    of the message or a padding block, is exactly 64 bytes long. *)
Theorem X1_blocks_are_64_bytes :
  forall f message len hash0,
    0 <= len < 2 ^ 64 -> len <= Z.of_nat (length message) ->
    exists m, sha1_hash f message len (start hash0) = Ok (tt, m)
              /\ Forall (fun b : list Z => length b = 64%nat) (calls m).*2.
Proof.
  intros f message len hash0 Hlen Hmsg.
  destruct (run_blocks f message len hash0 Hlen Hmsg) as (m & Hrun & Hb).
  exists m. split; [exact Hrun|]. rewrite Hb.
  pose proof (Z.div_mod len 64 ltac:(lia)) as Hdm.
  pose proof (Z.mod_pos_bound len 64 ltac:(lia)) as Hmod.
  assert (0 <= len / 64) by (apply Z.div_pos; lia).
  apply Forall_app. split.
  - apply chunks_block_length; lia.
  - apply pad_blocks_block_length. rewrite tail_length by lia. lia.
Qed.

Lemma X1_blocks_are_64_bytes_witness :
  0 <= 56 < 2 ^ 64 /\ 56 <= Z.of_nat (length (replicate 56 0x61)) /\
  exists m, sha1_hash compress (replicate 56 0x61) 56 (start IV) = Ok (tt, m)
            /\ Forall (fun b : list Z => length b = 64%nat) (calls m).*2.
Proof.
  assert (H1 : 0 <= 56 < 2 ^ 64) by lia.
  assert (H2 : 56 <= Z.of_nat (length (replicate 56 0x61))) by (vm_compute; discriminate).
  split; [exact H1|]. split; [exact H2|].
  exact (X1_blocks_are_64_bytes compress (replicate 56 0x61) 56 IV H1 H2).
Defined.

Lemma chunks_hold_bytes (msg : list Z) : forall q off,
  Forall (fun b => 0 <= b < 256) msg ->
  Forall (Forall (fun b => 0 <= b < 256)) (chunks msg off q).
Proof.
  induction q as [|q IH]; intros off H; cbn [chunks]; constructor.
  - apply Forall_take, Forall_drop. exact H.
  - apply IH. exact H.
Qed.

Lemma pad_blocks_hold_bytes (tail : list Z) len :
  Forall (fun b => 0 <= b < 256) tail ->
  Forall (Forall (fun b => 0 <= b < 256)) (pad_blocks tail len).
Proof.
  intros Ht. unfold pad_blocks.
  assert (Hz : forall k, Forall (fun b => 0 <= b < 256) (replicate k 0))
    by (intros k; apply Forall_replicate; lia).
  destruct (_ <=? 55)%nat.
  - constructor; [|constructor].
    apply Forall_app. split; [exact Ht|]. constructor; [lia|].
    apply Forall_app. split; [apply Hz|apply be64_range].
  - constructor; [|constructor; [|constructor]].
    + apply Forall_app. split; [exact Ht|]. constructor; [lia|apply Hz].
    + apply Forall_app. split; [apply Hz|apply be64_range].
Qed.

(** X2: when the first [len] bytes of the message are byte values
    (0 to 255), so is every byte of every block handed to the
    compression function. *)
Theorem X2_blocks_hold_bytes :
  forall f message len hash0,
    0 <= len < 2 ^ 64 -> len <= Z.of_nat (length message) ->
    Forall (fun b => 0 <= b < 256) (take (Z.to_nat len) message) ->
    exists m, sha1_hash f message len (start hash0) = Ok (tt, m)
              /\ Forall (Forall (fun b => 0 <= b < 256)) (calls m).*2.
Proof.
  intros f message len hash0 Hlen Hmsg Hbytes.
  destruct (run_blocks f message len hash0 Hlen Hmsg) as (m & Hrun & Hb).
  exists m. split; [exact Hrun|]. rewrite Hb.
  pose proof (blocks_prefix message len ltac:(lia)) as B. cbv zeta in B.
  rewrite <- B. set (msg := take (Z.to_nat len) message) in *. clearbody msg.
  apply Forall_app. split.
  - apply chunks_hold_bytes. exact Hbytes.
  - apply pad_blocks_hold_bytes. apply Forall_take, Forall_drop. exact Hbytes.
Qed.

Lemma X2_blocks_hold_bytes_witness :
  0 <= 3 < 2 ^ 64 /\ 3 <= Z.of_nat (length (cstring "abc")) /\
  Forall (fun b => 0 <= b < 256) (take (Z.to_nat 3) (cstring "abc")) /\
  exists m, sha1_hash compress (cstring "abc") 3 (start IV) = Ok (tt, m)
            /\ Forall (Forall (fun b => 0 <= b < 256)) (calls m).*2.
Proof.
  assert (H1 : 0 <= 3 < 2 ^ 64) by lia.
  assert (H2 : 3 <= Z.of_nat (length (cstring "abc"))) by (vm_compute; discriminate).
  assert (H3 : Forall (fun b => 0 <= b < 256) (take (Z.to_nat 3) (cstring "abc")))
    by (repeat constructor; vm_compute; congruence).
  split; [exact H1|]. split; [exact H2|]. split; [exact H3|].
  exact (X2_blocks_hold_bytes compress (cstring "abc") 3 IV H1 H2 H3).
Defined.

Lemma take_add (l : list Z) : forall n k : nat,
  take (n + k) l = take n l ++ take k (drop n l).
Proof.
  intros n. revert l. induction n as [|n IH]; intros l k; [reflexivity|].
  destruct l as [|x l]; [destruct k; reflexivity|].
  cbn [Nat.add take drop app]. rewrite IH. reflexivity.
Qed.

Lemma concat_chunks (message : list Z) : forall q off,
  0 <= off ->
  concat (chunks message off q) = take (64 * q) (drop (Z.to_nat off) message).
Proof.
  induction q as [|q IH]; intros off Hoff; cbn [chunks concat]; [reflexivity|].
  rewrite IH by lia.
  replace (Z.to_nat (off + 64)) with (Z.to_nat off + 64)%nat by lia.
  rewrite <- drop_drop.
  replace (64 * S q)%nat with (64 + 64 * q)%nat by lia.
  rewrite take_add. reflexivity.
Qed.

Lemma blocks_concat (message : list Z) len :
  0 <= len -> len <= Z.of_nat (length message) ->
  concat (chunks message 0 (Z.to_nat (len / 64)) ++
          pad_blocks (take (Z.to_nat (len mod 64))
                           (drop (64 * Z.to_nat (len / 64)) message)) len) =
  take (Z.to_nat len) message ++
  0x80 :: replicate (Z.to_nat ((55 - len) mod 64)) 0 ++ be64 (size_t (len * 8)).
Proof.
  intros Hlen Hmsg.
  pose proof (Z.div_mod len 64 ltac:(lia)) as Hdm.
  pose proof (Z.mod_pos_bound len 64 ltac:(lia)) as Hmod.
  assert (Hq0 : 0 <= len / 64) by (apply Z.div_pos; lia).
  set (q := Z.to_nat (len / 64)) in *.
  set (r := Z.to_nat (len mod 64)) in *.
  assert (Hqr : Z.to_nat len = (64 * q + r)%nat) by lia.
  set (tail := take r (drop (64 * q) message)) in *.
  assert (Htl : length tail = r) by (apply tail_length; lia).
  rewrite concat_app, concat_chunks by lia.
  change (drop (Z.to_nat 0) message) with message.
  rewrite Hqr, take_add. fold tail. rewrite <- app_assoc. f_equal.
  unfold pad_blocks. rewrite Htl.
  destruct (Nat.leb_spec r 55); cbn [concat]; rewrite ?app_nil_r.
  - replace (Z.to_nat ((55 - len) mod 64)) with (55 - r)%nat; [reflexivity|].
    unfold r. Z.div_mod_to_equations. lia.
  - rewrite <- app_assoc. cbn [app]. rewrite app_assoc, <- replicate_add.
    replace (Z.to_nat ((55 - len) mod 64)) with (63 - r + 56)%nat; [reflexivity|].
    unfold r. Z.div_mod_to_equations. lia.
Qed.

(** X3: the blocks handed to the compression function, laid end to
    end, are the first [len] bytes of the message, then one byte 0x80,
    then [(55 - len) mod 64] zero bytes, then the eight bytes of the bit
    length.  Their number is [(len + 8) / 64 + 1], so 64 times that many
    bytes are compressed: the least multiple of 64 that holds the
    message, the 0x80 byte and the length field. *)
Theorem X3_padded_message :
  forall f message len hash0,
    0 <= len < 2 ^ 64 -> len <= Z.of_nat (length message) ->
    exists m,
      sha1_hash f message len (start hash0) = Ok (tt, m)
      /\ concat (calls m).*2 =
           take (Z.to_nat len) message ++
           0x80 :: replicate (Z.to_nat ((55 - len) mod 64)) 0 ++
           be64 ((len * 8) mod 2 ^ 64)
      /\ Z.of_nat (length (calls m)) = (len + 8) / 64 + 1
      /\ Z.of_nat (length (concat (calls m).*2)) = 64 * ((len + 8) / 64 + 1)
      /\ len + 9 <= 64 * ((len + 8) / 64 + 1) < len + 9 + 64.
Proof.
  intros f message len hash0 Hlen Hmsg.
  destruct (run_blocks f message len hash0 Hlen Hmsg) as (m & Hrun & Hb).
  exists m. split; [exact Hrun|].
  pose proof (Z.div_mod len 64 ltac:(lia)) as Hdm.
  pose proof (Z.mod_pos_bound len 64 ltac:(lia)) as Hmod.
  assert (Hq0 : 0 <= len / 64) by (apply Z.div_pos; lia).
  set (q := Z.to_nat (len / 64)) in *.
  set (r := Z.to_nat (len mod 64)) in *.
  assert (Hqr : Z.to_nat len = (64 * q + r)%nat) by lia.
  set (tail := take r (drop (64 * q) message)) in *.
  assert (Htl : length tail = r) by (apply tail_length; lia).
  assert (Hcat : concat (calls m).*2 =
           take (Z.to_nat len) message ++
           0x80 :: replicate (Z.to_nat ((55 - len) mod 64)) 0 ++
           be64 ((len * 8) mod 2 ^ 64)).
  { rewrite Hb. apply blocks_concat; lia. }
  assert (Hcount : Z.of_nat (length (calls m)) = (len + 8) / 64 + 1).
  { rewrite <- (length_fmap snd), Hb, length_app, chunks_length, pad_blocks_length.
    fold tail. rewrite Htl.
    destruct (Nat.leb_spec r 55); unfold q, r in *; Z.div_mod_to_equations; lia. }
  split; [exact Hcat|]. split; [exact Hcount|].
  split.
  - rewrite Hcat, length_app, length_take. cbn [length].
    rewrite length_app, length_replicate.
    change (length (be64 ((len * 8) mod 2 ^ 64))) with 8%nat.
    Z.div_mod_to_equations. lia.
  - Z.div_mod_to_equations. lia.
Qed.

Lemma X3_padded_message_witness :
  0 <= 56 < 2 ^ 64 /\ 56 <= Z.of_nat (length (replicate 56 0x61)) /\
  exists m,
    sha1_hash compress (replicate 56 0x61) 56 (start IV) = Ok (tt, m)
    /\ concat (calls m).*2 =
         take (Z.to_nat 56) (replicate 56 0x61) ++
         0x80 :: replicate (Z.to_nat ((55 - 56) mod 64)) 0 ++
         be64 ((56 * 8) mod 2 ^ 64)
    /\ Z.of_nat (length (calls m)) = (56 + 8) / 64 + 1.
Proof.
  assert (H1 : 0 <= 56 < 2 ^ 64) by lia.
  assert (H2 : 56 <= Z.of_nat (length (replicate 56 0x61))) by (vm_compute; discriminate).
  split; [exact H1|]. split; [exact H2|].
  destruct (X3_padded_message compress (replicate 56 0x61) 56 IV H1 H2)
    as (m & A & B & C & _).
  exists m. auto.
Defined.

Lemma be64_inj a b :
  0 <= a < 2 ^ 64 -> 0 <= b < 2 ^ 64 -> be64 a = be64 b -> a = b.
Proof.
  intros Ha Hb E.
  assert (Hk : forall k, 0 <= k < 8 ->
            a / 2 ^ (8 * k) mod 256 = b / 2 ^ (8 * k) mod 256).
  { intros k Hk. pose proof (be64_lookup a k Hk) as Pa.
    rewrite E, be64_lookup in Pa by exact Hk. congruence. }
  apply Z.bits_inj'. intros i Hi.
  destruct (Z.lt_ge_cases i 64) as [Hlt|Hge].
  - pose proof (Z.div_mod i 8 ltac:(lia)) as Hdm.
    pose proof (Z.mod_pos_bound i 8 ltac:(lia)) as Hmod.
    assert (Hq : 0 <= i / 8 < 8) by (split; [apply Z.div_pos; lia|apply Z.div_lt_upper_bound; lia]).
    specialize (Hk (i / 8) Hq).
    apply (f_equal (fun x => Z.testbit x (i mod 8))) in Hk.
    change 256 with (2 ^ 8) in Hk.
    rewrite !Z.mod_pow2_bits_low in Hk by lia.
    rewrite !Z.div_pow2_bits in Hk by lia.
    replace (i mod 8 + 8 * (i / 8)) with i in Hk by lia.
    exact Hk.
  - rewrite <- (Z.mod_small a (2 ^ 64)), <- (Z.mod_small b (2 ^ 64)) by lia.
    rewrite !Z.mod_pow2_bits_high by lia. reflexivity.
Qed.

(** X5: the padding is unambiguous.  Two runs hand the same blocks to
    the compression function exactly when they were given the same
    length and the same first [len] message bytes; so two inputs that
    differ in length or in a counted byte always differ in some
    compressed block. *)
Theorem X5_padding_injective :
  forall f message message' len len' hash0 hash0',
    0 <= len < 2 ^ 64 -> len <= Z.of_nat (length message) ->
    0 <= len' < 2 ^ 64 -> len' <= Z.of_nat (length message') ->
    exists m m',
      sha1_hash f message len (start hash0) = Ok (tt, m)
      /\ sha1_hash f message' len' (start hash0') = Ok (tt, m')
      /\ ((calls m).*2 = (calls m').*2 <->
          len = len' /\ take (Z.to_nat len) message = take (Z.to_nat len') message').
Proof.
  intros f message message' len len' hash0 hash0' Hlen Hmsg Hlen' Hmsg'.
  destruct (run_blocks f message len hash0 Hlen Hmsg) as (m & Hrun & Hb).
  destruct (run_blocks f message' len' hash0' Hlen' Hmsg') as (m' & Hrun' & Hb').
  exists m, m'. split; [exact Hrun|]. split; [exact Hrun'|].
  split.
  - intros E.
    apply (f_equal (fun l : list (list Z) => concat l)) in E. rewrite Hb, Hb' in E.
    rewrite !blocks_concat in E by lia.
    set (A := take (Z.to_nat len) message) in *.
    set (A' := take (Z.to_nat len') message') in *.
    assert (HA : length A = Z.to_nat len) by (unfold A; rewrite length_take; lia).
    assert (HA' : length A' = Z.to_nat len') by (unfold A'; rewrite length_take; lia).
    set (z := Z.to_nat ((55 - len) mod 64)) in *.
    set (z' := Z.to_nat ((55 - len') mod 64)) in *.
    pose proof (f_equal length E) as El.
    rewrite !length_app in El. cbn [length] in El.
    rewrite !length_app, !length_replicate, HA, HA' in El.
    change (length (be64 (size_t (len * 8)))) with 8%nat in El.
    change (length (be64 (size_t (len' * 8)))) with 8%nat in El.
    assert (E2 : (A ++ 0x80 :: replicate z 0) ++ be64 (size_t (len * 8)) =
                 (A' ++ 0x80 :: replicate z' 0) ++ be64 (size_t (len' * 8))).
    { rewrite <- !app_assoc. exact E. }
    apply app_inj_2 in E2; [|reflexivity]. destruct E2 as [_ EL].
    apply be64_inj in EL; [|apply Z.mod_pos_bound; lia|apply Z.mod_pos_bound; lia].
    assert (Hsame : len = len').
    { unfold size_t, SIZE_BITS in EL. unfold z, z' in El.
      change (2 ^ 64) with 18446744073709551616 in *.
      Z.div_mod_to_equations. lia. }
    subst len'. split; [reflexivity|].
    apply app_inj_1 in E; [|lia]. apply E.
  - intros [<- Et]. rewrite Hb, Hb'.
    pose proof (blocks_prefix message len ltac:(lia)) as B.
    pose proof (blocks_prefix message' len ltac:(lia)) as B'.
    cbv zeta in B, B'. rewrite <- B, <- B', Et. reflexivity.
Qed.

Lemma X5_padding_injective_witness :
  0 <= 3 < 2 ^ 64 /\ 3 <= Z.of_nat (length (cstring "abc")) /\
  0 <= 2 < 2 ^ 64 /\ 2 <= Z.of_nat (length (cstring "abc")) /\
  exists m m',
    sha1_hash compress (cstring "abc") 3 (start IV) = Ok (tt, m)
    /\ sha1_hash compress (cstring "abc") 2 (start IV) = Ok (tt, m')
    /\ ((calls m).*2 = (calls m').*2 <->
        3 = 2 /\ take (Z.to_nat 3) (cstring "abc") = take (Z.to_nat 2) (cstring "abc")).
Proof.
  assert (H1 : 0 <= 3 < 2 ^ 64) by lia.
  assert (H2 : 3 <= Z.of_nat (length (cstring "abc"))) by (vm_compute; discriminate).
  assert (H3 : 0 <= 2 < 2 ^ 64) by lia.
  assert (H4 : 2 <= Z.of_nat (length (cstring "abc"))) by (vm_compute; discriminate).
  repeat (split; [assumption|]).
  exact (X5_padding_injective compress (cstring "abc") (cstring "abc") 3 2 IV IV
           H1 H2 H3 H4).
Defined.

Lemma take_thread f s bs (k : nat) :
  take k (thread f s bs) = thread f s (take k bs).
Proof.
  revert s k. induction bs as [|b bs IH]; intros s k; [destruct k; reflexivity|].
  destruct k as [|k]; [reflexivity|]. cbn [thread take]. rewrite IH. reflexivity.
Qed.

Lemma take_chunks (message : list Z) : forall (q k : nat) off,
  (k <= q)%nat -> take k (chunks message off q) = chunks message off k.
Proof.
  induction q as [|q IH]; intros k off Hk.
  - replace k with 0%nat by lia. reflexivity.
  - destruct k as [|k]; [reflexivity|]. cbn [chunks take]. rewrite IH by lia. reflexivity.
Qed.

(** X6: the first [k] calls of the compression function, with their
    incoming states, are determined by the first [64 * k] message bytes
    alone: two runs on messages that share these bytes and are both at
    least that long make the same first [k] calls, whatever follows and
    whatever the two lengths are. *)
Theorem X6_common_prefix :
  forall f message message' len len' hash0 hash0' (k : nat),
    0 <= len < 2 ^ 64 -> len <= Z.of_nat (length message) ->
    0 <= len' < 2 ^ 64 -> len' <= Z.of_nat (length message') ->
    64 * Z.of_nat k <= len -> 64 * Z.of_nat k <= len' ->
    take (64 * k) message = take (64 * k) message' ->
    exists m m',
      sha1_hash f message len (start hash0) = Ok (tt, m)
      /\ sha1_hash f message' len' (start hash0') = Ok (tt, m')
      /\ length (take k (calls m)) = k
      /\ take k (calls m) = take k (calls m').
Proof.
  intros f message message' len len' hash0 hash0' k Hlen Hmsg Hlen' Hmsg' Hk Hk' Epre.
  assert (P : forall msg l, 0 <= l < 2 ^ 64 -> l <= Z.of_nat (length msg) ->
            64 * Z.of_nat k <= l ->
            take k (thread f IV
                      (chunks msg 0 (Z.to_nat (l / 64)) ++
                       pad_blocks (take (Z.to_nat (l mod 64))
                                        (drop (64 * Z.to_nat (l / 64)) msg)) l))
            = thread f IV (chunks (take (64 * k) msg) 0 k)).
  { intros msg l Hl Hm Hkl.
    assert (Hq : (k <= Z.to_nat (l / 64))%nat).
    { assert (Z.of_nat k <= l / 64) by (apply Z.div_le_lower_bound; lia). lia. }
    rewrite take_thread, take_app_le by (rewrite chunks_length; exact Hq).
    rewrite take_chunks by exact Hq.
    rewrite chunks_prefix by lia. reflexivity. }
  eexists _, _.
  split; [apply (sha1_hash_ok f message len hash0 Hlen Hmsg)|].
  split; [apply (sha1_hash_ok f message' len' hash0' Hlen' Hmsg')|].
  cbn [calls]. rewrite (P message len Hlen Hmsg Hk), (P message' len' Hlen' Hmsg' Hk').
  split; [rewrite thread_length; apply chunks_length|].
  rewrite Epre. reflexivity.
Qed.

Lemma X6_common_prefix_witness :
  0 <= 64 < 2 ^ 64 /\ 64 <= Z.of_nat (length (replicate 64 0x61)) /\
  0 <= 70 < 2 ^ 64 /\ 70 <= Z.of_nat (length (replicate 64 0x61 ++ replicate 6 0x62)) /\
  64 * Z.of_nat 1 <= 64 /\ 64 * Z.of_nat 1 <= 70 /\
  take (64 * 1) (replicate 64 0x61) =
    take (64 * 1) (replicate 64 0x61 ++ replicate 6 0x62) /\
  exists m m',
    sha1_hash compress (replicate 64 0x61) 64 (start IV) = Ok (tt, m)
    /\ sha1_hash compress (replicate 64 0x61 ++ replicate 6 0x62) 70 (start IV) = Ok (tt, m')
    /\ length (take 1 (calls m)) = 1%nat
    /\ take 1 (calls m) = take 1 (calls m').
Proof.
  assert (H1 : 0 <= 64 < 2 ^ 64) by lia.
  assert (H2 : 64 <= Z.of_nat (length (replicate 64 0x61))) by (vm_compute; discriminate).
  assert (H3 : 0 <= 70 < 2 ^ 64) by lia.
  assert (H4 : 70 <= Z.of_nat (length (replicate 64 0x61 ++ replicate 6 0x62)))
    by (vm_compute; discriminate).
  assert (H5 : 64 * Z.of_nat 1 <= 64) by lia.
  assert (H6 : 64 * Z.of_nat 1 <= 70) by lia.
  assert (H7 : take (64 * 1) (replicate 64 0x61) =
               take (64 * 1) (replicate 64 0x61 ++ replicate 6 0x62)) by reflexivity.
  repeat (split; [assumption|]).
  exact (X6_common_prefix compress (replicate 64 0x61)
           (replicate 64 0x61 ++ replicate 6 0x62) 64 70 IV IV 1 H1 H2 H3 H4 H5 H6 H7).
Defined.

(** X7: the length field holds the bit length modulo 2^64, so the top
    three bits of [len] are lost: lengths that differ by a multiple of
    2^61 bytes get the same eight length bytes. *)
Theorem X7_length_field_wraps :
  forall (block : list Z) len j m,
    length block = 64%nat ->
    encode_length block (len + j * 2 ^ 61) m = encode_length block len m.
Proof.
  intros block len j m Hb.
  rewrite !encode_length_ok by exact Hb.
  do 4 f_equal. unfold size_t, SIZE_BITS.
  replace ((len + j * 2 ^ 61) * 8) with (len * 8 + j * 2 ^ 64).
  - apply Z.mod_add. lia.
  - change (2 ^ 64) with (2 ^ 61 * 8). lia.
Qed.

Lemma X7_length_field_wraps_witness :
  length (replicate 64 0) = 64%nat /\
  encode_length (replicate 64 0) (5 + 1 * 2 ^ 61) (start IV) =
  encode_length (replicate 64 0) 5 (start IV).
Proof.
  assert (H : length (replicate 64 0) = 64%nat) by reflexivity.
  split; [exact H|].
  exact (X7_length_field_wraps (replicate 64 0) 5 1 (start IV) H).
Defined.

Lemma bench_loop_log f block : forall (fuel : nat) i n m,
  0 <= i <= n -> n - i <= Z.of_nat fuel ->
  bench_loop f fuel i n block m =
    Ok (tt, Machine (fold_left f (replicate (Z.to_nat (n - i)) block) (hash m))
                    (calls m ++ thread f (hash m) (replicate (Z.to_nat (n - i)) block))
                    (trace m ++ replicate (Z.to_nat (n - i)) (Pass BlockPtr))).
Proof.
  induction fuel as [|fuel IH]; intros i n m Hi Hf.
  - assert (i = n) by lia. subst i. cbn [bench_loop].
    rewrite Z.ltb_irrefl, Z.sub_diag. cbn. rewrite !app_nil_r. destruct m; reflexivity.
  - cbn [bench_loop]. destruct (Z.ltb_spec i n).
    + erewrite bind_ok by apply call_compress_ok.
      rewrite IH by lia. cbn [hash calls trace].
      replace (Z.to_nat (n - i)) with (S (Z.to_nat (n - (i + 1)))) by lia.
      cbn [replicate thread fold_left]. rewrite <- !app_assoc. reflexivity.
    + replace (n - i) with 0 by lia. cbn. rewrite !app_nil_r. destruct m; reflexivity.
Qed.

(** X8: when the self-check passes, [main] prints the success line
    and the speed line and its benchmark calls the compression function
    ten million times on one all-zero 64-byte block, the first call on
    the all-zero state and each later call on the state the previous
    one left; when it fails, [main] prints only the failure line. *)
Theorem X8_benchmark_calls :
  forall f junk start_time end_time,
    exists passed o,
      self_check f junk = Ok passed
      /\ main f junk start_time end_time = Ok o
      /\ if passed
         then stdout o = [Printf ("Self-check passed" ++ newline);
                          PrintfSpeed (end_time - start_time)]
              /\ bench_calls o =
                   thread f (State5 0 0 0 0 0)
                     (replicate (Z.to_nat N_BENCH) (replicate 64 0))
         else stdout o = [Printf ("Self-check failed" ++ newline)]
              /\ bench_calls o = [].
Proof.
  intros f junk t0 t1.
  destruct (self_check_total f junk) as (passed & Hsc).
  exists passed. unfold main. rewrite Hsc.
  destruct passed; cbn [negb].
  - unfold benchmark.
    assert (H0 : 0 <= N_BENCH) by (unfold N_BENCH; lia).
    generalize dependent N_BENCH. intros n Hn.
    rewrite (bench_loop_log f (replicate 64 0) (Z.to_nat n) 0 n _ ltac:(lia) ltac:(lia)).
    cbn [report start hash calls trace app].
    eexists. split; [reflexivity|]. split; [reflexivity|].
    cbn [stdout bench_calls]. rewrite Z.sub_0_r. split; reflexivity.
  - eexists. split; [reflexivity|]. split; [reflexivity|]. split; reflexivity.
Qed.

Lemma chunks_concat (s : list Z) : forall (bs : list (list Z)) (pre : list Z),
  Forall (fun b : list Z => length b = 64%nat) bs ->
  chunks (pre ++ concat bs ++ s) (Z.of_nat (length pre)) (length bs) = bs.
Proof.
  induction bs as [|b bs IH]; intros pre Hbs; [reflexivity|].
  inversion Hbs as [|? ? Hb Hrest]; subst.
  cbn [length chunks concat]. rewrite Nat2Z.id. f_equal.
  - rewrite drop_app_length. rewrite <- app_assoc.
    apply take_app_length'. symmetry. exact Hb.
  - replace (Z.of_nat (length pre) + 64) with (Z.of_nat (length (pre ++ b)))
      by (rewrite length_app; lia).
    etransitivity; [|apply (IH (pre ++ b) Hrest)].
    f_equal. rewrite <- !app_assoc. reflexivity.
Qed.

Lemma blocks_count (message : list Z) len :
  0 <= len -> len <= Z.of_nat (length message) ->
  Z.of_nat (length (chunks message 0 (Z.to_nat (len / 64)) ++
                    pad_blocks (take (Z.to_nat (len mod 64))
                                     (drop (64 * Z.to_nat (len / 64)) message)) len))
  = (len + 8) / 64 + 1.
Proof.
  intros Hlen Hmsg.
  pose proof (Z.mod_pos_bound len 64 ltac:(lia)) as Hmod.
  assert (Hq0 : 0 <= len / 64) by (apply Z.div_pos; lia).
  rewrite length_app, chunks_length, pad_blocks_length, tail_length by lia.
  destruct (Nat.leb_spec (Z.to_nat (len mod 64)) 55); Z.div_mod_to_equations; lia.
Qed.

(** X9: hashing can be resumed from a digest.  Let [P] be the blocks
    compressed for a message, laid end to end.  A run on a buffer made
    of [P] and any further bytes, with the length of that buffer, first
    makes exactly the calls of the run on the message, and its next
    call starts from the digest of the message. *)
Theorem X9_resume_from_digest :
  forall f message len hash0 hash0' suffix,
    0 <= len < 2 ^ 64 -> len <= Z.of_nat (length message) ->
    64 * ((len + 8) / 64 + 1) + Z.of_nat (length suffix) < 2 ^ 64 ->
    exists m m2 b,
      sha1_hash f message len (start hash0) = Ok (tt, m)
      /\ sha1_hash f (concat (calls m).*2 ++ suffix)
            (Z.of_nat (length (concat (calls m).*2 ++ suffix))) (start hash0')
          = Ok (tt, m2)
      /\ take (length (calls m)) (calls m2) = calls m
      /\ calls m2 !! length (calls m) = Some (hash m, b).
Proof.
  intros f message len hash0 hash0' suffix Hlen Hmsg Hroom.
  pose proof (sha1_hash_ok f message len hash0 Hlen Hmsg) as Hrun. cbv zeta in Hrun.
  pose proof (blocks_count message len ltac:(lia) Hmsg) as Hcount.
  set (bs := chunks message 0 (Z.to_nat (len / 64)) ++
             pad_blocks (take (Z.to_nat (len mod 64))
                              (drop (64 * Z.to_nat (len / 64)) message)) len) in *.
  assert (H64 : Forall (fun b : list Z => length b = 64%nat) bs).
  { pose proof (Z.div_mod len 64 ltac:(lia)) as Hdm.
    pose proof (Z.mod_pos_bound len 64 ltac:(lia)) as Hmod.
    assert (0 <= len / 64) by (apply Z.div_pos; lia).
    apply Forall_app. split.
    - apply chunks_block_length; lia.
    - apply pad_blocks_block_length. rewrite tail_length by lia. lia. }
  assert (HP : length (concat bs) = (64 * length bs)%nat).
  { clear -H64. induction H64 as [|b l Hb _ IH]; [reflexivity|].
    cbn [concat length]. rewrite length_app, IH, Hb. lia. }
  set (P := concat bs) in *.
  set (len2 := Z.of_nat (length (P ++ suffix))).
  assert (Hlen2 : len2 = Z.of_nat (length P) + Z.of_nat (length suffix))
    by (unfold len2; rewrite length_app; lia).
  assert (Hlen2' : 0 <= len2 < 2 ^ 64) by lia.
  pose proof (sha1_hash_ok f (P ++ suffix) len2 hash0' Hlen2' ltac:(unfold len2; lia))
    as Hrun2.
  cbv zeta in Hrun2.
  set (q2 := Z.to_nat (len2 / 64)) in *.
  set (ps2 := pad_blocks (take (Z.to_nat (len2 mod 64)) (drop (64 * q2) (P ++ suffix))) len2) in *.
  assert (Hq2 : (length bs <= q2)%nat).
  { assert (Z.of_nat (length bs) <= len2 / 64)
      by (apply Z.div_le_lower_bound; lia).
    unfold q2. lia. }
  assert (Hpre : take (length bs) (chunks (P ++ suffix) 0 q2 ++ ps2) = bs).
  { rewrite take_app_le by (rewrite chunks_length; exact Hq2).
    rewrite take_chunks by exact Hq2.
    apply (chunks_concat suffix bs [] H64). }
  assert (Hps2 : (1 <= length ps2)%nat).
  { unfold ps2. rewrite pad_blocks_length. destruct (_ <=? 55)%nat; lia. }
  destruct (lookup_lt_is_Some_2 (chunks (P ++ suffix) 0 q2 ++ ps2) (length bs)) as [b Hb].
  { rewrite length_app, chunks_length. lia. }
  eexists _, _, b. split; [exact Hrun|].
  cbn [calls hash]. rewrite thread_blocks, thread_length. fold P. fold len2.
  split; [exact Hrun2|]. cbn [calls]. split.
  - rewrite take_thread, Hpre. reflexivity.
  - rewrite thread_lookup, Hb, Hpre. reflexivity.
Qed.

Lemma X9_resume_from_digest_witness :
  0 <= 3 < 2 ^ 64 /\ 3 <= Z.of_nat (length (cstring "abc")) /\
  64 * ((3 + 8) / 64 + 1) + Z.of_nat (length [0x64]) < 2 ^ 64 /\
  exists m m2 b,
    sha1_hash compress (cstring "abc") 3 (start IV) = Ok (tt, m)
    /\ sha1_hash compress (concat (calls m).*2 ++ [0x64])
          (Z.of_nat (length (concat (calls m).*2 ++ [0x64]))) (start IV)
        = Ok (tt, m2)
    /\ take (length (calls m)) (calls m2) = calls m
    /\ calls m2 !! length (calls m) = Some (hash m, b).
Proof.
  assert (H1 : 0 <= 3 < 2 ^ 64) by lia.
  assert (H2 : 3 <= Z.of_nat (length (cstring "abc"))) by (vm_compute; discriminate).
  assert (H3 : 64 * ((3 + 8) / 64 + 1) + Z.of_nat (length [0x64]) < 2 ^ 64)
    by (vm_compute; reflexivity).
  split; [exact H1|]. split; [exact H2|]. split; [exact H3|].
  exact (X9_resume_from_digest compress (cstring "abc") 3 IV IV [0x64] H1 H2 H3).
Defined.

(** X10: for a length of zero, whatever the buffer, no message byte is
    read and the compression function is called once, from the initial
    constants, on the block made of 0x80 and 63 zero bytes; its result
    is the digest.  The memory events are the five stores to [hash],
    the initialiser of the local block, the store of 0x80 to its byte
    0, the eight stores of the length field and the block handed to
    the compression function. *)
Theorem X10_empty_message :
  forall f message hash0,
    sha1_hash f message 0 (start hash0) =
      Ok (tt, Machine (f IV (0x80 :: replicate 63 0))
                      [(IV, 0x80 :: replicate 63 0)]
                      ((WriteHash <$> seqZ 0 5) ++ (WriteBlock <$> seqZ 0 64) ++
                       [WriteBlock 0] ++
                       (WriteBlock <$> [63; 62; 61; 60; 59; 58; 57; 56]) ++
                       [Pass BlockPtr])).
Proof.
  intros f message hash0.
  rewrite (sha1_hash_ok f message 0 hash0) by lia.
  reflexivity.
Qed.
